(** * concopy.dump: a shallow embedding of the dump engine

    The Python module [concopy/dump.py] drives a PostgreSQL connection
    (psycopg2), the external [pg_dump] tool and a zip archive.  The
    embedding keeps the shape of the source: the module's SQL constants, the
    [Dump] archive class and every method of [Dumper], written in a small
    state-and-exception monad over an explicit [World]. *)

From Stdlib Require Import String Ascii List ZArith Bool.
From stdpp Require Import base option list gmap strings.

Local Open Scope string_scope.
Local Open Scope list_scope.

(** ** Python values and [str.format] *)

Module Py.

(** The Python values handed to [subprocess.Popen] and to
    [cursor.execute] here. *)
Inductive value : Type :=
| Str (s : string)
| Int (z : Z)
| Tuple (items : list string).

(** The parameters of a statement: [None] is the empty list. *)
Definition params := list (string * value).

(** [isinstance(x, str)]. *)
Definition is_str (x : value) : bool :=
  match x with Str _ => true | _ => false end.

(** Truthiness, as used by [x or default] and [if x:]. *)
Definition truthy_list {A} (l : list A) : bool :=
  match l with [] => false | _ :: _ => true end.

Definition truthy_str (s : string) : bool :=
  match s with EmptyString => false | String _ _ => true end.

(** [o or d] where [o] may be [None]. *)
Definition or_else {A} (truthy : A -> bool) (o : option A) (d : A) : A :=
  match o with
  | Some a => if truthy a then a else d
  | None => d
  end.

(** Keyword arguments of [str.format]. *)
Definition kwargs := list (string * string).

Fixpoint kwarg (name : string) (kw : kwargs) : option string :=
  match kw with
  | [] => None
  | (k, v) :: kw' => if String.eqb k name then Some v else kwarg name kw'
  end.

(** [template.format] with keyword arguments [kw], for templates whose
    replacement fields are plain names in braces (no conversion, no format
    spec, no doubled braces): the only kind this module has.  [field] is
    the name being read while inside braces.  [None] is the exception
    Python raises (KeyError for a missing name, ValueError for an
    unbalanced brace). *)
Fixpoint format_from (kw : kwargs) (field : option string) (s : string)
  : option string :=
  match s with
  | EmptyString =>
      match field with
      | None => Some EmptyString
      | Some _ => None
      end
  | String c rest =>
      match field with
      | None =>
          if Ascii.eqb c "{" then format_from kw (Some EmptyString) rest
          else if Ascii.eqb c "}" then None
          else option_map (String c) (format_from kw None rest)
      | Some name =>
          if Ascii.eqb c "}" then
            match kwarg name kw, format_from kw None rest with
            | Some v, Some r => Some (v +:+ r)
            | _, _ => None
            end
          else format_from kw (Some (name +:+ String c EmptyString)) rest
      end
  end.

Definition format (template : string) (kw : kwargs) : option string :=
  format_from kw None template.

(** [needle in haystack] on strings. *)
Fixpoint contains (haystack needle : string) : bool :=
  String.prefix needle haystack
  || match haystack with
     | EmptyString => false
     | String _ rest => contains rest needle
     end.

(** A Python [dict] keeps its keys in insertion order; assigning to a key
    that is present replaces the value where it stands. *)
Fixpoint dict_set {V} (k : string) (v : V) (d : list (string * V))
  : list (string * V) :=
  match d with
  | [] => [(k, v)]
  | (k', v') :: d' =>
      if String.eqb k' k then (k', v) :: d' else (k', v') :: dict_set k v d'
  end.

End Py.

(** ** The module's SQL text *)

(** The templates are triple-quoted literals: they start and end with a line
    break, and several lines end in a blank, which [unlines] keeps visible. *)

Definition nl : string := String (ascii_of_nat 10) EmptyString.

Definition unlines (ls : list string) : string :=
  fold_right (fun l acc => l +:+ nl +:+ acc) EmptyString ls.

Definition SELECTABLE_TABLES_SQL : string := "
SELECT table_name
FROM information_schema.tables
WHERE
    table_schema NOT IN ('pg_catalog', 'information_schema') AND
    table_schema NOT LIKE 'pg_toast%'
".

Definition SEQUENCES_SQL : string := "
SELECT relname FROM pg_class WHERE relkind = 'S'
".

Definition RELATED_ITEMS_FULL_QUERY : string := unlines [
  "";
  "SELECT ";
  "  * ";
  "FROM {foreign_table} ";
  "WHERE {foreign_column_name} IN (";
  "  SELECT ";
  "    DISTINCT {local_column_name} ";
  "  FROM {local_table} ";
  "  WHERE {local_column_name} IS NOT NULL";
  ")"
].

Definition NON_RECURSIVE_RELATIONS_QUERY : string := "
SELECT
    tc.constraint_name, tc.table_name, kcu.column_name,
    ccu.table_name AS foreign_table_name,
    ccu.column_name AS foreign_column_name
FROM
    information_schema.table_constraints AS tc
    JOIN information_schema.key_column_usage AS kcu
      ON tc.constraint_name = kcu.constraint_name
    JOIN information_schema.constraint_column_usage AS ccu
      ON ccu.constraint_name = tc.constraint_name
WHERE constraint_type = 'FOREIGN KEY' AND tc.table_name != ccu.table_name AND tc.table_name = %(table_name)s
".

Definition RECURSIVE_QUERY_TEMPLATE : string := unlines [
  "";
  "WITH RECURSIVE recursive_cte AS (";
  "  SELECT * ";
  "  FROM non_recursive_cte";
  "  UNION";
  "  SELECT T.*";
  "  FROM {target} T";
  "  INNER JOIN recursive_cte ON (recursive_cte.{local_column_name} = E.{foreign_column_name})";
  "), non_recursive_cte AS (";
  "  SELECT * ";
  "  FROM {target}";
  "  WHERE ";
  ")";
  "SELECT * FROM recursive_cte"
].

Definition RECURSIVE_RELATIONS_QUERY : string := "
SELECT
    tc.constraint_name, tc.table_name, kcu.column_name,
    ccu.table_name AS foreign_table_name,
    ccu.column_name AS foreign_column_name
FROM
    information_schema.table_constraints AS tc
    JOIN information_schema.key_column_usage AS kcu
      ON tc.constraint_name = kcu.constraint_name
    JOIN information_schema.constraint_column_usage AS ccu
      ON ccu.constraint_name = tc.constraint_name
WHERE constraint_type = 'FOREIGN KEY' AND tc.table_name = ccu.table_name AND tc.table_name = %(table_name)s
".

Definition NOT_IN_FULL_TABLES : string :=
  " AND ccu.table_name NOT IN %(full_tables)s".

(** ** The database as the module sees it *)

Module Pg.

(** Rows of the catalog relations the module's queries read. *)
Record tables_row := {
  t_table_schema : string;
  t_table_name : string
}.

Record pg_class_row := {
  c_relname : string;
  c_relkind : string
}.

Record table_constraints_row := {
  tc_constraint_name : string;
  tc_table_name : string;
  tc_constraint_type : string
}.

Record key_column_usage_row := {
  kcu_constraint_name : string;
  kcu_column_name : string
}.

Record constraint_column_usage_row := {
  ccu_constraint_name : string;
  ccu_table_name : string;
  ccu_column_name : string
}.

(** A key constraint as the database holds it: a primary key, a unique
    constraint or a foreign key on [con_columns] of [con_table]; a foreign
    key references [con_ref_columns] of [con_ref_table], position by
    position. *)
Record key_constraint := {
  con_name : string;
  con_type : string;
  con_table : string;
  con_columns : list string;
  con_ref_table : string;
  con_ref_columns : list string
}.

(** One committed state of the database: its catalog, and what the server
    answers to a [COPY ... TO STDOUT] statement ([None]: the statement is
    rejected). *)
Record Database := {
  information_schema_tables : list tables_row;
  pg_class : list pg_class_row;
  constraints : list key_constraint;
  copy : string -> option string
}.

(** The three views of [information_schema] the relations queries read, as
    PostgreSQL fills them: [table_constraints] has a row per constraint,
    [key_column_usage] a row per column of the constraint, and
    [constraint_column_usage] a row per column the constraint uses, which
    for a foreign key are the columns of the referenced table. *)
Definition table_constraints (db : Database) : list table_constraints_row :=
  map
    (fun c =>
       {| tc_constraint_name := con_name c;
          tc_table_name := con_table c;
          tc_constraint_type := con_type c |})
    (constraints db).

Definition key_column_usage (db : Database) : list key_column_usage_row :=
  flat_map
    (fun c =>
       map
         (fun column =>
            {| kcu_constraint_name := con_name c;
               kcu_column_name := column |})
         (con_columns c))
    (constraints db).

Definition constraint_column_usage (db : Database)
  : list constraint_column_usage_row :=
  flat_map
    (fun c =>
       if String.eqb (con_type c) "FOREIGN KEY" then
         map
           (fun column =>
              {| ccu_constraint_name := con_name c;
                 ccu_table_name := con_ref_table c;
                 ccu_column_name := column |})
           (con_ref_columns c)
       else
         map
           (fun column =>
              {| ccu_constraint_name := con_name c;
                 ccu_table_name := con_table c;
                 ccu_column_name := column |})
           (con_columns c))
    (constraints db).

(** SQL [s LIKE pat]: [%] stands for any run of characters, [_] for any
    single one. *)
Fixpoint like (pat s : string) : bool :=
  match pat with
  | EmptyString =>
      match s with EmptyString => true | String _ _ => false end
  | String p pat' =>
      if Ascii.eqb p "%" then
        (fix any (s : string) : bool :=
           like pat' s
           || match s with
              | EmptyString => false
              | String _ s' => any s'
              end) s
      else
        match s with
        | EmptyString => false
        | String c s' => (Ascii.eqb p "_" || Ascii.eqb p c) && like pat' s'
        end
  end.

Definition in_list (x : string) (l : list string) : bool :=
  existsb (String.eqb x) l.

(** [SELECTABLE_TABLES_SQL]. *)
Definition selectable_tables (db : Database) : list string :=
  map t_table_name
    (List.filter
       (fun r =>
          negb (in_list (t_table_schema r) ["pg_catalog"; "information_schema"])
          && negb (like "pg_toast%" (t_table_schema r)))
       (information_schema_tables db)).

(** [SEQUENCES_SQL]. *)
Definition sequences (db : Database) : list string :=
  map c_relname
    (List.filter (fun r => String.eqb (c_relkind r) "S") (pg_class db)).

(** A row of either relations query, with the keys the source reads. *)
Record relation := {
  constraint_name : string;
  table_name : string;
  column_name : string;
  foreign_table_name : string;
  foreign_column_name : string
}.

(** The FROM clause shared by both relations queries: [tc] joined to [kcu]
    and to [ccu] on the constraint name. *)
Definition joined (db : Database)
  : list (table_constraints_row * key_column_usage_row
          * constraint_column_usage_row) :=
  flat_map
    (fun tc =>
       flat_map
         (fun kcu =>
            map (fun ccu => (tc, kcu, ccu))
              (List.filter
                 (fun ccu =>
                    String.eqb (ccu_constraint_name ccu) (tc_constraint_name tc))
                 (constraint_column_usage db)))
         (List.filter
            (fun kcu =>
               String.eqb (tc_constraint_name tc) (kcu_constraint_name kcu))
            (key_column_usage db)))
    (table_constraints db).

(** The select list. *)
Definition select_relation
  (j : table_constraints_row * key_column_usage_row
       * constraint_column_usage_row) : relation :=
  let '(tc, kcu, ccu) := j in
  {| constraint_name := tc_constraint_name tc;
     table_name := tc_table_name tc;
     column_name := kcu_column_name kcu;
     foreign_table_name := ccu_table_name ccu;
     foreign_column_name := ccu_column_name ccu |}.

(** The WHERE clause.  [recursive] tells the two queries apart
    ([tc.table_name = ccu.table_name] against [!=]); [not_in] is the
    optional [NOT IN %(full_tables)s] conjunct. *)
Definition where_relations (recursive not_in : bool)
  (table_name : string) (full_tables : list string)
  (j : table_constraints_row * key_column_usage_row
       * constraint_column_usage_row) : bool :=
  let '(tc, _, ccu) := j in
  String.eqb (tc_constraint_type tc) "FOREIGN KEY"
  && (if recursive
      then String.eqb (tc_table_name tc) (ccu_table_name ccu)
      else negb (String.eqb (tc_table_name tc) (ccu_table_name ccu)))
  && String.eqb (tc_table_name tc) table_name
  && (if not_in then negb (in_list (ccu_table_name ccu) full_tables) else true).

Definition relations (recursive not_in : bool)
  (table_name : string) (full_tables : list string) (db : Database)
  : list relation :=
  map select_relation
    (List.filter (where_relations recursive not_in table_name full_tables)
       (joined db)).

End Pg.

(** ** The world: files, the cached connection, and what was observed *)

(** Exceptions that leave [dump]. *)
Inductive exn : Type :=
| OperationalError                  (* psycopg2.connect was refused *)
| DatabaseError (statement : string) (* the server rejected a statement *)
| OSError (what : string)            (* open() or Popen failed *)
| ValueError (what : string)         (* write to a closed archive *)
| KeyError (template : string)       (* str.format *)
| TypeError (what : string)          (* Popen given an argument that is no str *)
| InFailedSqlTransaction.            (* statement in an aborted transaction *)

Inductive IsolationLevel : Type :=
| READ_COMMITTED
| REPEATABLE_READ.

(** A psycopg2 connection (autocommit off): [snapshot] is [None] while no
    transaction is open, and holds the database version the transaction reads
    once its first statement has run.  [aborted] is set when the server has
    rejected a statement of the transaction: until a rollback, which nothing
    here sends, the server refuses every further statement. *)
Record Connection := {
  conn_id : nat;
  isolation_level : IsolationLevel;
  snapshot : option nat;
  aborted : bool
}.

(** A zip archive on disk: the members written so far, in order, and
    whether the archive has been closed. *)
Record ZipFile := {
  entries : list (string * string);
  closed : bool
}.

Inductive Event : Type :=
| Connected (conn : nat)
| Statement (conn : nat) (version : nat) (sql : string) (params : Py.params)
| Spawned (argv : list Py.value) (env : gmap string string)
| Printed (rows : list Pg.relation).

Record World := {
  files : gmap string ZipFile;
  cached_connection : option Connection;   (* the [connection]/[cursor] cache *)
  connections : nat;                       (* connections opened so far *)
  time : nat;                              (* exchanges with the outside so far *)
  trace : list Event
}.

(** What the program cannot decide: the history of committed database
    states, which of them is current at each exchange (other sessions
    commit in between), the server's and file system's willingness, the
    ambient environment and the [pg_dump] program. *)
Record System := {
  history : nat -> Pg.Database;
  schedule : nat -> nat;
  accepts_connections : bool;
  environ : gmap string string;
  pg_dump_program :
    Pg.Database -> list Py.value -> gmap string string -> option string;
  writable : string -> bool
}.

(** ** State and exceptions *)

Definition M (A : Type) : Type := World -> (exn + A) * World.

Definition ret {A} (a : A) : M A := fun w => (inr a, w).

Definition raise {A} (e : exn) : M A := fun w => (inl e, w).

Definition bind {A B} (m : M A) (k : A -> M B) : M B :=
  fun w =>
    match m w with
    | (inr a, w') => k a w'
    | (inl e, w') => (inl e, w')
    end.

Notation "x <- m ;; k" := (bind m (fun x => k))
  (at level 100, m at next level, right associativity).
Notation "m ;;; k" := (bind m (fun _ => k))
  (at level 100, right associativity).

(** [for x in xs: body x]. *)
Fixpoint for_each {A} (xs : list A) (body : A -> M unit) : M unit :=
  match xs with
  | [] => ret tt
  | x :: xs' => body x ;;; for_each xs' body
  end.

Definition namelist (z : ZipFile) : list string := map fst (entries z).

(** [zipfile.ZipFile.writestr]: the member is appended to the archive. *)
Definition writestr (file : string) (arcname data : string) : M unit :=
  fun w =>
    match files w !! file with
    | Some z =>
        if closed z then (inl (ValueError file), w)
        else
          (inr tt,
           {| files := <[file := {| entries := entries z ++ [(arcname, data)];
                                    closed := false |}]> (files w);
              cached_connection := cached_connection w;
              connections := connections w;
              time := time w;
              trace := trace w |})
    | None => (inl (OSError file), w)
    end.

(** [Dump.write_data]. *)
Definition write_data (file : string) (table_name data : string) : M unit :=
  writestr file ("dump/data/" +:+ table_name +:+ ".csv") data.

(** [ZipFile.close]: the archive is completed over the members it has. *)
Definition close_archive (file : string) (w : World) : World :=
  {| files :=
       match files w !! file with
       | Some z => <[file := {| entries := entries z; closed := true |}]> (files w)
       | None => files w
       end;
     cached_connection := cached_connection w;
     connections := connections w;
     time := time w;
     trace := trace w |}.

Section Dumper.

Variable sys : System.

(** [make_options] comes from [concopy.utils], which the module imports;
    it turns an option name and a list of values into arguments for
    [pg_dump]. *)
Variable make_options : string -> list string -> list string.

(** The attributes of a [Dumper]. *)
Record Dumper := {
  dbname : string;
  user : string;
  password : option string;
  host : string;
  port : Py.value
}.

Variable self : Dumper.

(** [with Dump(filename, 'w', zipfile.ZIP_DEFLATED) as file: body]:
    opening truncates or creates the file; leaving the block closes the
    archive, whether [body] returned or raised, and an exception goes on
    to the caller. *)
Definition with_Dump {A} (filename : string) (body : string -> M A) : M A :=
  fun w =>
    if writable sys filename then
      let opened :=
        {| files := <[filename := {| entries := []; closed := false |}]> (files w);
           cached_connection := cached_connection w;
           connections := connections w;
           time := time w;
           trace := trace w |} in
      let '(r, w') := body filename opened in
      (r, close_archive filename w')
    else (inl (OSError filename), w).

(** [Dumper.connection] (a cached property): connect once, set the
    isolation level, keep the connection. *)
Definition connection : M Connection :=
  fun w =>
    match cached_connection w with
    | Some c => (inr c, w)
    | None =>
        if accepts_connections sys then
          let fresh :=
            {| conn_id := connections w;
               isolation_level := READ_COMMITTED;
               snapshot := None;
               aborted := false |} in
          let c :=
            {| conn_id := conn_id fresh;
               isolation_level := REPEATABLE_READ;
               snapshot := snapshot fresh;
               aborted := aborted fresh |} in
          (inr c,
           {| files := files w;
              cached_connection := Some c;
              connections := S (connections w);
              time := time w;
              trace := trace w ++ [Connected (conn_id c)] |})
        else (inl OperationalError, w)
    end.

(** [Dumper.cursor] (a cached property): the cursor of the cached
    connection. *)
Definition cursor : M Connection := connection.

(** The version a statement reads: under repeatable read the snapshot of
    the open transaction, under read committed whatever is current. *)
Definition visible (c : Connection) (now : nat) : nat :=
  match isolation_level c with
  | REPEATABLE_READ => default now (snapshot c)
  | READ_COMMITTED => now
  end.

(** One statement on the cursor.  The first statement opens the
    transaction, fixing its snapshot; nothing here ends it.  A statement the
    server rejects aborts the transaction, and in an aborted transaction the
    server refuses every statement it is sent. *)
Definition execute {R} (c : Connection) (sql : string) (params : Py.params)
  (answer : Pg.Database -> option R) : M R :=
  fun w =>
    let now := schedule sys (time w) in
    let seen :=
      visible
        {| conn_id := conn_id c;
           isolation_level := isolation_level c;
           snapshot := Some (default now (snapshot c));
           aborted := aborted c |}
        now in
    let result :=
      if aborted c then None else answer (history sys seen) in
    let c' :=
      {| conn_id := conn_id c;
         isolation_level := isolation_level c;
         snapshot := Some (default now (snapshot c));
         aborted := match result with Some _ => aborted c | None => true end |} in
    let w' :=
      {| files := files w;
         cached_connection := Some c';
         connections := connections w;
         time := S (time w);
         trace := trace w ++ [Statement (conn_id c) seen sql params] |} in
    match result with
    | Some r => (inr r, w')
    | None =>
        (inl (if aborted c then InFailedSqlTransaction else DatabaseError sql),
         w')
    end.

(** [Dumper.run]: execute and fetch all rows. *)
Definition run {R} (sql : string) (params : Py.params)
  (rows : Pg.Database -> list R) : M (list R) :=
  c <- cursor ;;
  execute c sql params (fun db => Some (rows db)).

(** [Dumper.export_to_csv]. *)
Definition export_to_csv (sql : string) : M string :=
  c <- cursor ;;
  let statement := "COPY (" +:+ sql +:+ ") TO STDOUT WITH CSV HEADER" in
  execute c statement [] (fun db => Pg.copy db statement).

(** [Dumper.pg_dump_environment]. *)
Definition pg_dump_environment : gmap string string :=
  match password self with
  | Some p =>
      if Py.truthy_str p then <["PGPASSWORD" := p]> (environ sys)
      else environ sys
  | None => environ sys
  end.

(** [Dumper.pg_dump]: the child runs on a connection of its own and reads
    whatever is current.  [Popen] takes only strings in its argument list:
    with any other value there, the port as the integer it is by default
    among them, it raises [TypeError] and starts no process. *)
Definition pg_dump (args : list string) : M string :=
  fun w =>
    let argv :=
      [Py.Str "pg_dump";
       Py.Str "-U"; Py.Str (user self);
       Py.Str "-h"; Py.Str (host self);
       Py.Str "-p"; port self;
       Py.Str "-d"; Py.Str (dbname self)] ++ map Py.Str args in
    let env := pg_dump_environment in
    let w' :=
      {| files := files w;
         cached_connection := cached_connection w;
         connections := connections w;
         time := S (time w);
         trace := trace w ++ [Spawned argv env] |} in
    if forallb Py.is_str argv then
      match pg_dump_program sys (history sys (schedule sys (time w))) argv env with
      | Some out => (inr out, w')
      | None => (inl (OSError "pg_dump"), w)
      end
    else (inl (TypeError "expected str, bytes or os.PathLike object"), w).

Definition get_selectable_tables : M (list string) :=
  run SELECTABLE_TABLES_SQL [] Pg.selectable_tables.

Definition dump_schema : M string :=
  selectable_tables <- get_selectable_tables ;;
  pg_dump (["-s"; "-x"] ++ make_options "-t" selectable_tables).

Definition write_schema (file : string) : M unit :=
  schema <- dump_schema ;;
  writestr file "dump/schema.sql" schema.

Definition get_sequences : M (list string) :=
  run SEQUENCES_SQL [] Pg.sequences.

Definition dump_sequences : M string :=
  sequences <- get_sequences ;;
  pg_dump (["-a"] ++ make_options "-t" sequences).

Definition write_sequences (file : string) : M unit :=
  sequences <- dump_sequences ;;
  writestr file "dump/sequences.sql" sequences.

Definition write_csv (file : string) (table_name sql : string) : M unit :=
  data <- export_to_csv sql ;;
  write_data file table_name data.

Definition print (rows : list Pg.relation) : M unit :=
  fun w =>
    (inr tt,
     {| files := files w;
        cached_connection := cached_connection w;
        connections := connections w;
        time := time w;
        trace := trace w ++ [Printed rows] |}).

(** [RELATED_ITEMS_FULL_QUERY.format(...)] for one row of the relations
    query. *)
Definition related_items_query (table_name : string) (item : Pg.relation)
  : option string :=
  Py.format RELATED_ITEMS_FULL_QUERY
    [("foreign_table", Pg.foreign_table_name item);
     ("foreign_column_name", Pg.foreign_column_name item);
     ("local_table", table_name);
     ("local_column_name", Pg.column_name item)].

(** The dict comprehension of [get_related_objects_queries]: one key per
    [foreign_table_name], a later row replacing an earlier one. *)
Fixpoint related_queries_dict (table_name : string)
  (related_tables : list Pg.relation) (acc : list (string * string))
  : M (list (string * string)) :=
  match related_tables with
  | [] => ret acc
  | item :: rest =>
      match related_items_query table_name item with
      | Some q =>
          related_queries_dict table_name rest
            (Py.dict_set (Pg.foreign_table_name item) q acc)
      | None => raise (KeyError RELATED_ITEMS_FULL_QUERY)
      end
  end.

Definition get_related_objects_queries (table_name : string)
  (full_tables : list string) : M (list (string * string)) :=
  let template :=
    if Py.truthy_list full_tables
    then NON_RECURSIVE_RELATIONS_QUERY +:+ NOT_IN_FULL_TABLES
    else NON_RECURSIVE_RELATIONS_QUERY in
  related_tables <-
    run template
      [("table_name", Py.Str table_name); ("full_tables", Py.Tuple full_tables)]
      (Pg.relations false (Py.truthy_list full_tables) table_name full_tables) ;;
  related_queries_dict table_name related_tables [].

Definition write_full_tables (file : string) (tables : list string) : M unit :=
  for_each tables
    (fun table_name =>
       related_partial_queries <- get_related_objects_queries table_name tables ;;
       write_csv file table_name ("SELECT * FROM " +:+ table_name)).

Definition write_partial_tables (file : string)
  (config : list (string * string)) (full_tables : list string) : M unit :=
  for_each config
    (fun '(table_name, sql) =>
       related_non_recursive_queries <-
         get_related_objects_queries table_name full_tables ;;
       let template :=
         if Py.truthy_list full_tables
         then RECURSIVE_RELATIONS_QUERY +:+ NOT_IN_FULL_TABLES
         else RECURSIVE_RELATIONS_QUERY in
       related_tables <-
         run template
           [("table_name", Py.Str table_name);
            ("full_tables", Py.Tuple full_tables)]
           (Pg.relations true (Py.truthy_list full_tables) table_name full_tables) ;;
       print related_tables ;;;
       write_csv file table_name sql).

(** [Dumper.dump]. *)
Definition dump (filename : string) (full_tables : option (list string))
  (partial_tables : option (list (string * string))) : M unit :=
  let full_tables := Py.or_else Py.truthy_list full_tables [] in
  let partial_tables := Py.or_else Py.truthy_list partial_tables [] in
  with_Dump filename
    (fun file =>
       write_schema file ;;;
       write_sequences file ;;;
       write_full_tables file full_tables ;;;
       write_partial_tables file partial_tables full_tables).

End Dumper.

(** ** The test schema

    [groups(id, name)], [employees(id, ..., manager_id -> employees.id,
    referrer_id -> employees.id, group_id -> groups.id)] and
    [tickets(id, author_id -> employees.id, ...)]. *)

Module Fixture.

Import Pg.

(** [table.column] references [ref_table.id]. *)
Definition fk (table column ref_table : string) : key_constraint :=
  {| con_name := table +:+ "_" +:+ column +:+ "_fkey";
     con_type := "FOREIGN KEY";
     con_table := table;
     con_columns := [column];
     con_ref_table := ref_table;
     con_ref_columns := ["id"] |}.

Definition pk (table : string) : key_constraint :=
  {| con_name := table +:+ "_pkey";
     con_type := "PRIMARY KEY";
     con_table := table;
     con_columns := ["id"];
     con_ref_table := table;
     con_ref_columns := ["id"] |}.

Definition keys : list key_constraint :=
  [pk "groups"; pk "employees"; pk "tickets";
   fk "employees" "manager_id" "employees";
   fk "employees" "referrer_id" "employees";
   fk "employees" "group_id" "groups";
   fk "tickets" "author_id" "employees"].

(** The root selections of [test_related_table], [test_complex_query] and
    [test_long_relation]. *)
Definition EMPLOYEE_SQL : string :=
  "SELECT * FROM employees WHERE id = 1".

Definition LIMITED_SQL : string :=
  "SELECT * FROM employees WHERE id = 1 LIMIT 1".

Definition TICKET_SQL : string :=
  "SELECT * FROM tickets WHERE id = 1".

Definition EMPLOYEES_HEADER : string :=
  "id,first_name,last_name,manager_id,referrer_id,group_id".

(** Rows by database version: a third group is committed by another
    session as version 1. *)
Definition groups_csv (version : nat) : string :=
  match version with
  | O => unlines ["id,name"; "1,Admin"; "2,User"]
  | S _ => unlines ["id,name"; "1,Admin"; "2,User"; "3,test"]
  end.

Definition answers (version : nat) : list (string * string) :=
  [("COPY (SELECT * FROM groups) TO STDOUT WITH CSV HEADER",
    groups_csv version);
   ("COPY (SELECT * FROM employees) TO STDOUT WITH CSV HEADER",
    unlines [EMPLOYEES_HEADER; "1,John,Doe,,,1"; "2,John,Black,1,,1";
             "3,John,Smith,1,,1"; "4,John,Brown,3,,2"; "5,John,Snow,3,4,2"]);
   ("COPY (" +:+ TICKET_SQL +:+ ") TO STDOUT WITH CSV HEADER",
    unlines ["id,author_id,subject,message"; "1,1,Sub 1,Message 1"]);
   ("COPY (" +:+ EMPLOYEE_SQL +:+ ") TO STDOUT WITH CSV HEADER",
    unlines [EMPLOYEES_HEADER; "1,John,Doe,,,1"]);
   ("COPY (" +:+ LIMITED_SQL +:+ ") TO STDOUT WITH CSV HEADER",
    unlines [EMPLOYEES_HEADER; "1,John,Doe,,,1"])].

Definition database (version : nat) : Database :=
  {| information_schema_tables :=
       [{| t_table_schema := "pg_catalog"; t_table_name := "pg_class" |};
        {| t_table_schema := "public"; t_table_name := "groups" |};
        {| t_table_schema := "public"; t_table_name := "employees" |};
        {| t_table_schema := "public"; t_table_name := "tickets" |};
        {| t_table_schema := "pg_toast_temp_1"; t_table_name := "pg_toast_1" |}];
     pg_class :=
       [{| c_relname := "groups"; c_relkind := "r" |};
        {| c_relname := "groups_id_seq"; c_relkind := "S" |};
        {| c_relname := "employees_id_seq"; c_relkind := "S" |};
        {| c_relname := "tickets_id_seq"; c_relkind := "S" |}];
     constraints := keys;
     copy := fun statement => Py.kwarg statement (answers version) |}.

(** Another session commits between every two exchanges. *)
Definition system : System :=
  {| history := database;
     schedule := fun t => t;
     accepts_connections := true;
     environ := {["PATH" := "/usr/bin"]};
     pg_dump_program :=
       fun _ argv _ =>
         Some (match argv with
               | _ :: _ :: _ :: _ :: _ :: _ :: _ :: _ :: _ :: Py.Str "-a" :: _ =>
                   "SELECT pg_catalog.setval('groups_id_seq', 2, true);"
               | _ => "CREATE TABLE groups"
               end);
     writable := fun _ => true |}.

Definition make_options (name : string) (values : list string) : list string :=
  flat_map (fun v => [name; v]) values.

Definition dumper : Dumper :=
  {| dbname := "test"; user := "postgres"; password := Some "PASSW";
     host := "127.0.0.1"; port := Py.Str "5432" |}.

(** The same, with the port left at the default of the class. *)
Definition default_port_dumper : Dumper :=
  {| dbname := "test"; user := "postgres"; password := Some "PASSW";
     host := "127.0.0.1"; port := Py.Int 5432 |}.

Definition world : World :=
  {| files := ∅; cached_connection := None; connections := 0;
     time := 0; trace := [] |}.

(** A catalog with a foreign key of two columns:
    [child (a, b)] references [parent (x, y)]. *)
Definition composite_database : Database :=
  {| information_schema_tables :=
       [{| t_table_schema := "public"; t_table_name := "parent" |};
        {| t_table_schema := "public"; t_table_name := "child" |}];
     pg_class := [];
     constraints :=
       [{| con_name := "parent_pkey"; con_type := "PRIMARY KEY";
           con_table := "parent"; con_columns := ["x"; "y"];
           con_ref_table := "parent"; con_ref_columns := ["x"; "y"] |};
        {| con_name := "child_a_fkey"; con_type := "FOREIGN KEY";
           con_table := "child"; con_columns := ["a"; "b"];
           con_ref_table := "parent"; con_ref_columns := ["x"; "y"] |}];
     copy := fun _ => None |}.

Definition composite_edge (column ref : string) : relation :=
  {| constraint_name := "child_a_fkey";
     table_name := "child";
     column_name := column;
     foreign_table_name := "parent";
     foreign_column_name := ref |}.

End Fixture.

(** * Notions used in the statements *)

(** ** The selection generated for a non-recursive edge *)

Arguments related_items_query : simpl never.

(** [RELATED_ITEMS_FULL_QUERY] with its four fields filled in for the edge
    [local_table.column_name -> foreign_table_name.foreign_column_name]. *)
Definition flat_selection (local_table : string) (item : Pg.relation) : string :=
  nl +:+ "SELECT " +:+ nl
  +:+ "  * " +:+ nl
  +:+ "FROM " +:+ Pg.foreign_table_name item +:+ " " +:+ nl
  +:+ "WHERE " +:+ Pg.foreign_column_name item +:+ " IN (" +:+ nl
  +:+ "  SELECT " +:+ nl
  +:+ "    DISTINCT " +:+ Pg.column_name item +:+ " " +:+ nl
  +:+ "  FROM " +:+ local_table +:+ " " +:+ nl
  +:+ "  WHERE " +:+ Pg.column_name item +:+ " IS NOT NULL" +:+ nl
  +:+ ")" +:+ nl.

(** ** Members of the archive *)

Definition csv_path (table_name : string) : string :=
  "dump/data/" +:+ table_name +:+ ".csv".

(** The names [dump] gives to the members of its archive. *)
Definition dump_names (full_tables : option (list string))
  (partial_tables : option (list (string * string))) : list string :=
  ["dump/schema.sql"; "dump/sequences.sql"]
  ++ map csv_path (Py.or_else Py.truthy_list full_tables [])
  ++ map (fun item => csv_path item.1)
       (Py.or_else Py.truthy_list partial_tables []).

(** ** Computations that leave the files alone *)

Definition keeps_files {A} (m : M A) : Prop :=
  forall w, files (m w).2 = files w.

(** ** Computations that append members to an open archive

    [appends file m names]: run on a world where [file] is an open archive,
    [m] leaves it open with new members at the end; their names are [names]
    when [m] returns, and a prefix of [names] when [m] raises. *)

Definition appends {A} (file : string) (m : M A) (names : list string) : Prop :=
  forall w z,
    files w !! file = Some z -> closed z = false ->
    exists new,
      files (m w).2 !! file
      = Some {| entries := entries z ++ new; closed := false |}
      /\ match (m w).1 with
         | inr _ => map fst new = names
         | inl _ => map fst new `prefix_of` names
         end.

(** ** Computations that send statements

    [issues m stmts]: the statements [m] sends on the connection, text and
    parameters, are [stmts] when [m] returns and a prefix of [stmts] when it
    raises. *)

Definition statements (evs : list Event) : list (string * Py.params) :=
  flat_map
    (fun ev => match ev with Statement _ _ sql ps => [(sql, ps)] | _ => [] end)
    evs.

Definition issues {A} (m : M A) (stmts : list (string * Py.params)) : Prop :=
  forall w,
    exists evs,
      trace (m w).2 = trace w ++ evs
      /\ match (m w).1 with
         | inr _ => statements evs = stmts
         | inl _ => statements evs `prefix_of` stmts
         end.

Definition copy_statement (sql : string) : string :=
  "COPY (" +:+ sql +:+ ") TO STDOUT WITH CSV HEADER".

(** A relations query as it is sent for a table. *)
Definition relations_statement (query table_name : string)
  (full_tables : list string) : string * Py.params :=
  (if Py.truthy_list full_tables then query +:+ NOT_IN_FULL_TABLES else query,
   [("table_name", Py.Str table_name); ("full_tables", Py.Tuple full_tables)]).

(** What is sent for one full table, and for one partial table. *)
Definition full_table_statements (tables : list string) (table_name : string)
  : list (string * Py.params) :=
  [relations_statement NON_RECURSIVE_RELATIONS_QUERY table_name tables;
   (copy_statement ("SELECT * FROM " +:+ table_name), [])].

Definition partial_table_statements (full_tables : list string)
  (item : string * string) : list (string * Py.params) :=
  [relations_statement NON_RECURSIVE_RELATIONS_QUERY item.1 full_tables;
   relations_statement RECURSIVE_RELATIONS_QUERY item.1 full_tables;
   (copy_statement item.2, [])].

(** ** Computations on one snapshot

    [extends w w']: from [w] to [w'] the trace only grew, every statement
    added was issued on the cached connection, under repeatable read, and
    read the snapshot that connection still holds in [w']; a transaction
    open in [w] is the one open in [w']. *)

Definition conn_ok (w : World) : Prop :=
  forall c, cached_connection w = Some c -> isolation_level c = REPEATABLE_READ.

Definition reads (w : World) (evs : list Event) : Prop :=
  forall cid v sql ps,
    In (Statement cid v sql ps) evs ->
    exists c,
      cached_connection w = Some c
      /\ conn_id c = cid
      /\ isolation_level c = REPEATABLE_READ
      /\ snapshot c = Some v.

(** [c'] is the connection [c] in the same transaction. *)
Definition same_transaction (c c' : Connection) : Prop :=
  conn_id c' = conn_id c
  /\ isolation_level c' = isolation_level c
  /\ snapshot c' = snapshot c.

Record extends (w w' : World) : Prop := {
  ext_conn_ok : conn_ok w';
  ext_frozen :
    forall c, cached_connection w = Some c -> is_Some (snapshot c) ->
              exists c', cached_connection w' = Some c'
                         /\ same_transaction c c';
  ext_trace : exists evs, trace w' = trace w ++ evs /\ reads w' evs
}.

Definition transacts {A} (m : M A) : Prop :=
  forall w, conn_ok w -> extends w (m w).2.

(** ** Computations that return

    [returns P m]: from any world satisfying [P], [m] returns (it does not
    raise) and [P] holds again. *)

Definition returns {A} (P : World -> Prop) (m : M A) : Prop :=
  forall w, P w -> exists a w', m w = (inr a, w') /\ P w'.

(** The cached connection, when there is one, is not in an aborted
    transaction. *)
Definition healthy (w : World) : Prop :=
  forall c, cached_connection w = Some c -> aborted c = false.

(** [file] is an open archive, and a connection is cached, its transaction
    not aborted, or can be made. *)
Definition serving (sys : System) (file : string) (w : World) : Prop :=
  (exists z, files w !! file = Some z /\ closed z = false)
  /\ (accepts_connections sys = true \/ is_Some (cached_connection w))
  /\ healthy w.

(** * What the specification talks about *)

Module Spec.

(** The foreign-key edges of a database: every foreign key gives one edge
    for each of its positions, from the referencing column to the column it
    references. *)
Definition foreign_key_edges (db : Pg.Database) : list Pg.relation :=
  flat_map
    (fun c =>
       map
         (fun columns =>
            {| Pg.constraint_name := Pg.con_name c;
               Pg.table_name := Pg.con_table c;
               Pg.column_name := columns.1;
               Pg.foreign_table_name := Pg.con_ref_table c;
               Pg.foreign_column_name := columns.2 |})
         (zip (Pg.con_columns c) (Pg.con_ref_columns c)))
    (List.filter
       (fun c => String.eqb (Pg.con_type c) "FOREIGN KEY")
       (Pg.constraints db)).

(** The edges a lookup is asked for: those of [table] whose two tables
    coincide ([recursive]) or differ, and do not lead into [full_tables]. *)
Definition edge_selected (recursive : bool) (table : string)
  (full_tables : list string) (e : Pg.relation) : bool :=
  String.eqb (Pg.table_name e) table
  && (if recursive
      then String.eqb (Pg.table_name e) (Pg.foreign_table_name e)
      else negb (String.eqb (Pg.table_name e) (Pg.foreign_table_name e)))
  && negb (Pg.in_list (Pg.foreign_table_name e) full_tables).

(** Every constraint has a name of its own, and every foreign key is on a
    single column. *)
Definition simple_keys (db : Pg.Database) : bool :=
  bool_decide (NoDup (map Pg.con_name (Pg.constraints db)))
  && forallb
       (fun c =>
          negb (String.eqb (Pg.con_type c) "FOREIGN KEY")
          || (Nat.eqb (length (Pg.con_columns c)) 1
              && Nat.eqb (length (Pg.con_ref_columns c)) 1))
       (Pg.constraints db).

(** The relation targets of a root: the tables its non-recursive edges lead
    to, those in the full-table set left out. *)
Definition relation_targets (db : Pg.Database) (full_tables : list string)
  (root : string) : list string :=
  map Pg.foreign_table_name
    (List.filter
       (fun e =>
          String.eqb (Pg.table_name e) root
          && negb (String.eqb (Pg.table_name e) (Pg.foreign_table_name e))
          && negb (Pg.in_list (Pg.foreign_table_name e) full_tables))
       (foreign_key_edges db)).

(** Tables reachable from a root through edges the full-table set does not
    prune. *)
Inductive reachable (db : Pg.Database) (full_tables : list string)
  : string -> string -> Prop :=
| reachable_edge e :
    In e (foreign_key_edges db) ->
    ~ In (Pg.foreign_table_name e) full_tables ->
    reachable db full_tables (Pg.table_name e) (Pg.foreign_table_name e)
| reachable_trans t u v :
    reachable db full_tables t u -> reachable db full_tables u v ->
    reachable db full_tables t v.

(** A selection wraps the root SQL as a subquery. *)
Definition wraps (selection root_sql : string) : bool :=
  Py.contains selection ("(" +:+ root_sql +:+ ")").

(** No transaction is open on the cached connection. *)
Definition committed (w : World) : Prop :=
  forall c, cached_connection w = Some c -> snapshot c = None.

(** The versions read by the statements of a trace, in order. *)
Definition versions_read (evs : list Event) : list nat :=
  flat_map
    (fun ev => match ev with Statement _ v _ _ => [v] | _ => [] end) evs.

End Spec.

(** ** A reading of SQL text: tokens, qualifiers and the names in scope *)

Module SqlText.

Definition is_blank (c : ascii) : bool :=
  Ascii.eqb c " " || Ascii.eqb c (ascii_of_nat 10).

Definition is_punct (c : ascii) : bool :=
  Ascii.eqb c "(" || Ascii.eqb c ")" || Ascii.eqb c "," || Ascii.eqb c "=".

Definition flush (cur : string) : list string :=
  match cur with EmptyString => [] | _ => [cur] end.

Fixpoint tokens_from (cur s : string) : list string :=
  match s with
  | EmptyString => flush cur
  | String c rest =>
      if is_blank c then flush cur ++ tokens_from EmptyString rest
      else if is_punct c
           then flush cur ++ String c EmptyString :: tokens_from EmptyString rest
           else tokens_from (cur +:+ String c EmptyString) rest
  end.

Definition tokens (s : string) : list string := tokens_from EmptyString s.

(** [Some q] for a token [q.x]. *)
Fixpoint qualifier_from (acc t : string) : option string :=
  match t with
  | EmptyString => None
  | String c rest =>
      if Ascii.eqb c "." then Some acc
      else qualifier_from (acc +:+ String c EmptyString) rest
  end.

Definition qualifiers (s : string) : list string :=
  omap (qualifier_from EmptyString) (tokens s).

Definition keywords : list string :=
  ["WITH"; "RECURSIVE"; "AS"; "SELECT"; "FROM"; "UNION"; "ALL"; "INNER";
   "JOIN"; "ON"; "WHERE"; "("; ")"; ","; "="; "*"].

(** The names position [i] brings into scope: a CTE name ([name AS]), or a
    table after FROM or JOIN together with its alias when it has one. *)
Definition bound_at (ts : list string) (i : nat) : list string :=
  match ts !! i, ts !! S i with
  | Some a, Some b =>
      if String.eqb b "AS" then [a]
      else if String.eqb a "FROM" || String.eqb a "JOIN" then
        b :: match ts !! S (S i) with
             | Some c => if Pg.in_list c keywords then [] else [c]
             | None => []
             end
      else []
  | _, _ => []
  end.

Definition defined_names (s : string) : list string :=
  let ts := tokens s in flat_map (bound_at ts) (seq 0 (length ts)).

(** A WHERE with no condition after it. *)
Definition empty_where_at (ts : list string) (i : nat) : bool :=
  match ts !! i, ts !! S i with
  | Some a, Some b => String.eqb a "WHERE" && String.eqb b ")"
  | Some a, None => String.eqb a "WHERE"
  | None, _ => false
  end.

Definition has_empty_where (s : string) : bool :=
  let ts := tokens s in existsb (empty_where_at ts) (seq 0 (length ts)).

End SqlText.

(** A world in which [dump.zip] is an open, empty archive. *)
Definition empty_archive : ZipFile := {| entries := []; closed := false |}.

Definition opened_world : World :=
  {| files := {["dump.zip" := empty_archive]};
     cached_connection := None; connections := 0; time := 0; trace := [] |}.

(** * Further notions *)

(** ** Computations that leave another file alone *)

Definition leaves {A} (f : string) (m : M A) : Prop :=
  forall w, files (m w).2 !! f = files w !! f.

(** The tables a [dump] writes a member for: the full tables, then the keys
    of the partial mapping. *)
Definition dumped_tables (full_tables : option (list string))
  (partial_tables : option (list (string * string))) : list string :=
  Py.or_else Py.truthy_list full_tables []
  ++ map fst (Py.or_else Py.truthy_list partial_tables []).

(** The dict comprehension of [get_related_objects_queries] as a fold. *)
Definition related_queries (table_name : string) (rows : list Pg.relation)
  (acc : list (string * string)) : list (string * string) :=
  fold_left
    (fun d item =>
       Py.dict_set (Pg.foreign_table_name item)
         (flat_selection table_name item) d)
    rows acc.

(** The test schema with a second reference from [tickets] to [employees]:
    [tickets.assignee_id -> employees.id]. *)
Definition assigned_database (version : nat) : Pg.Database :=
  let db := Fixture.database version in
  {| Pg.information_schema_tables := Pg.information_schema_tables db;
     Pg.pg_class := Pg.pg_class db;
     Pg.constraints :=
       Pg.constraints db ++ [Fixture.fk "tickets" "assignee_id" "employees"];
     Pg.copy := Pg.copy db |}.

Definition assigned_system : System :=
  {| history := assigned_database;
     schedule := schedule Fixture.system;
     accepts_connections := true;
     environ := environ Fixture.system;
     pg_dump_program := pg_dump_program Fixture.system;
     writable := writable Fixture.system |}.

(** ** Computations and the exceptions they raise *)

(** [throws m E]: run while the cached connection is in no aborted
    transaction, [m] raises only exceptions of [E], and when it returns the
    connection is in no aborted transaction still. *)
Definition throws {A} (m : M A) (E : exn -> Prop) : Prop :=
  forall w, healthy w ->
    match m w with
    | (inl e, _) => E e
    | (inr _, w') => healthy w'
    end.

(** The same, for a computation run while [file] is an open archive. *)
Definition raises_only {A} (file : string) (m : M A) (E : exn -> Prop) : Prop :=
  forall w z,
    healthy w -> files w !! file = Some z -> closed z = false ->
    match m w with
    | (inl e, _) => E e
    | (inr _, w') => healthy w'
    end.

(** The selections of a [dump]: every row of each full table, then the SQL
    given for each partial table. *)
Definition selections (full_tables : option (list string))
  (partial_tables : option (list (string * string)))
  : list (string * string) :=
  map (fun t => (t, "SELECT * FROM " +:+ t))
    (Py.or_else Py.truthy_list full_tables [])
  ++ Py.or_else Py.truthy_list partial_tables [].

(** The exceptions of the database side of a [dump], each with its cause:
    the server refuses the connection, [pg_dump] cannot be started, the port
    handed to [Popen] is no string, or the server rejects the COPY of one of
    the selections. *)
Definition session_error (sys : System) (self : Dumper) (sqls : list string)
  (e : exn) : Prop :=
  (e = OperationalError /\ accepts_connections sys = false)
  \/ (e = OSError "pg_dump"
      /\ exists db argv env, pg_dump_program sys db argv env = None)
  \/ ((exists what, e = TypeError what) /\ Py.is_str (port self) = false)
  \/ (exists sql version,
         In sql sqls
         /\ e = DatabaseError (copy_statement sql)
         /\ Pg.copy (history sys version) (copy_statement sql) = None).

(** The exceptions of a [dump] called in the world [w]: besides those of the
    database side, the archive cannot be opened, or the transaction of the
    cached connection was aborted already when [dump] was called. *)
Definition dump_error (sys : System) (self : Dumper) (filename : string)
  (full_tables : option (list string))
  (partial_tables : option (list (string * string))) (w : World) (e : exn)
  : Prop :=
  (e = OSError filename /\ writable sys filename = false)
  \/ (e = InFailedSqlTransaction
      /\ exists c, cached_connection w = Some c /\ aborted c = true)
  \/ session_error sys self (map snd (selections full_tables partial_tables)) e.

(** ** What the archive holds, relative to the snapshot *)

(** The version the open transaction reads, when there is one. *)
Definition open_snapshot (w : World) : option nat :=
  match cached_connection w with
  | Some c => snapshot c
  | None => None
  end.

(** [P] holds at the snapshot of the open transaction; with no transaction
    open, nothing has been read and [P] holds whatever the version. *)
Definition at_snapshot (w : World) (P : nat -> Prop) : Prop :=
  match open_snapshot w with
  | Some v => P v
  | None => forall v, P v
  end.

(** [stores file m R]: when [m] returns, the members it added to the open
    archive [file] satisfy [R] at the snapshot of the transaction. *)
Definition stores {A} (file : string) (m : M A)
  (R : nat -> list (string * string) -> Prop) : Prop :=
  forall w z a w',
    conn_ok w -> files w !! file = Some z -> closed z = false ->
    m w = (inr a, w') ->
    exists new,
      files w' !! file = Some {| entries := entries z ++ new; closed := false |}
      /\ at_snapshot w' (fun v => R v new).

(** [m] returns only with a transaction open. *)
Definition snapshots {A} (m : M A) : Prop :=
  forall w a w', m w = (inr a, w') -> is_Some (open_snapshot w').

(** The command line of [pg_dump]. *)
Definition pg_dump_argv (self : Dumper) (args : list string) : list Py.value :=
  [Py.Str "pg_dump";
   Py.Str "-U"; Py.Str (user self);
   Py.Str "-h"; Py.Str (host self);
   Py.Str "-p"; port self;
   Py.Str "-d"; Py.Str (dbname self)] ++ map Py.Str args.

(** [out] is what [pg_dump] prints for [args], at some version. *)
Definition dumped_by (sys : System) (self : Dumper) (args : list string)
  (out : string) : Prop :=
  exists version,
    pg_dump_program sys (history sys version) (pg_dump_argv self args)
      (pg_dump_environment sys self) = Some out.

(** The member written for the selection [item] holds the server's answer
    to its COPY at [version]. *)
Definition answered (sys : System) (version : nat) (item : string * string)
  (member : string * string) : Prop :=
  member.1 = csv_path item.1
  /\ Pg.copy (history sys version) (copy_statement item.2) = Some member.2.

(** The two members written first. *)
Definition schema_member (sys : System)
  (make_options : string -> list string -> list string) (self : Dumper)
  (version : nat) (new : list (string * string)) : Prop :=
  exists out,
    new = [("dump/schema.sql", out)]
    /\ dumped_by sys self
         (["-s"; "-x"]
          ++ make_options "-t" (Pg.selectable_tables (history sys version)))
         out.

Definition sequences_member (sys : System)
  (make_options : string -> list string -> list string) (self : Dumper)
  (version : nat) (new : list (string * string)) : Prop :=
  exists out,
    new = [("dump/sequences.sql", out)]
    /\ dumped_by sys self
         (["-a"] ++ make_options "-t" (Pg.sequences (history sys version)))
         out.

(** ** One connection *)

(** From [w] to [w'] the cached connection was kept, or made where there
    was none; no second one was opened. *)
Definition same_connection (w w' : World) : Prop :=
  match cached_connection w with
  | Some c =>
      (exists c', cached_connection w' = Some c' /\ conn_id c' = conn_id c)
      /\ connections w' = connections w
  | None =>
      (cached_connection w' = None /\ connections w' = connections w)
      \/ (exists c',
             cached_connection w' = Some c'
             /\ conn_id c' = connections w
             /\ connections w' = S (connections w))
  end.

Definition reuses {A} (m : M A) : Prop :=
  forall w, same_connection w (m w).2.

(** All a [dump] sends on its connection. *)
Definition dump_statements (full_tables : option (list string))
  (partial_tables : option (list (string * string)))
  : list (string * Py.params) :=
  [(SELECTABLE_TABLES_SQL, []); (SEQUENCES_SQL, [])]
  ++ flat_map
       (full_table_statements (Py.or_else Py.truthy_list full_tables []))
       (Py.or_else Py.truthy_list full_tables [])
  ++ flat_map
       (partial_table_statements (Py.or_else Py.truthy_list full_tables []))
       (Py.or_else Py.truthy_list partial_tables []).

(** ** The steps of a [dump] *)

(** The world the body of [with Dump(filename, 'w')] starts in: the archive
    is created, or truncated, and open. *)
Definition opened (filename : string) (w : World) : World :=
  {| files := <[filename := {| entries := []; closed := false |}]> (files w);
     cached_connection := cached_connection w;
     connections := connections w;
     time := time w;
     trace := trace w |}.

(** Steps run in order, up to the first that raises. *)
Fixpoint sequence_ (steps : list (M unit)) : M unit :=
  match steps with
  | [] => ret tt
  | step :: rest => step ;;; sequence_ rest
  end.

(** The body of [dump], step by step: [write_schema], [write_sequences],
    then one turn of the loop of [write_full_tables] for every full table
    and one turn of the loop of [write_partial_tables] for every partial
    table. *)
Definition dump_steps (sys : System)
  (make_options : string -> list string -> list string) (self : Dumper)
  (file : string) (full_tables : list string)
  (partial_tables : list (string * string)) : list (M unit) :=
  [write_schema sys make_options self file;
   write_sequences sys make_options self file]
  ++ map
       (fun table_name =>
          related_partial_queries <-
            get_related_objects_queries sys table_name full_tables ;;
          write_csv sys file table_name ("SELECT * FROM " +:+ table_name))
       full_tables
  ++ map
       (fun '(table_name, sql) =>
          related_non_recursive_queries <-
            get_related_objects_queries sys table_name full_tables ;;
          let template :=
            if Py.truthy_list full_tables
            then RECURSIVE_RELATIONS_QUERY +:+ NOT_IN_FULL_TABLES
            else RECURSIVE_RELATIONS_QUERY in
          related_tables <-
            run sys template
              [("table_name", Py.Str table_name);
               ("full_tables", Py.Tuple full_tables)]
              (Pg.relations true (Py.truthy_list full_tables) table_name
                 full_tables) ;;
          print related_tables ;;;
          write_csv sys file table_name sql)
       partial_tables.

(** [one_member file step name]: run while [file] is an open archive,
    [step] adds the one member [name] at its end when it returns, and
    leaves every file as it was when it raises. *)
Definition one_member (file : string) (step : M unit) (name : string) : Prop :=
  forall w z,
    files w !! file = Some z -> closed z = false ->
    match step w with
    | (inr _, w') =>
        exists data,
          files w' !! file
          = Some {| entries := entries z ++ [(name, data)]; closed := false |}
    | (inl _, w') => files w' = files w
    end.

(** * Lemmas *)

(** Formatting the template never raises. *)
Lemma related_items_query_flat local_table item :
  related_items_query local_table item = Some (flat_selection local_table item).
Proof. reflexivity. Qed.

(** * Reasoning about the monad *)

(** ** Leaving the files alone *)

Lemma keeps_files_ret {A} (a : A) : keeps_files (ret a).
Proof. now intros w. Qed.

Lemma keeps_files_raise {A} e : keeps_files (@raise A e).
Proof. now intros w. Qed.

Lemma keeps_files_bind {A B} (m : M A) (k : A -> M B) :
  keeps_files m -> (forall a, keeps_files (k a)) -> keeps_files (bind m k).
Proof.
  intros Hm Hk w. specialize (Hm w). unfold bind.
  destruct (m w) as [[e | a] w1]; simpl in *; [done |].
  now rewrite Hk.
Qed.

Section KeepsFiles.

Variable sys : System.
Variable make_options : string -> list string -> list string.
Variable self : Dumper.

Lemma keeps_files_connection : keeps_files (connection sys).
Proof.
  intros w. unfold connection.
  destruct (cached_connection w); [done |].
  now destruct (accepts_connections sys).
Qed.

Lemma keeps_files_execute {R} c sql ps (answer : Pg.Database -> option R) :
  keeps_files (execute sys c sql ps answer).
Proof.
  intros w. unfold execute. destruct (aborted c); [done |].
  now destruct (answer _).
Qed.

Lemma keeps_files_run {R} sql ps (rows : Pg.Database -> list R) :
  keeps_files (run sys sql ps rows).
Proof.
  apply keeps_files_bind; [apply keeps_files_connection |].
  intros c. apply keeps_files_execute.
Qed.

Lemma keeps_files_export_to_csv sql : keeps_files (export_to_csv sys sql).
Proof.
  apply keeps_files_bind; [apply keeps_files_connection |].
  intros c. apply keeps_files_execute.
Qed.

Lemma keeps_files_pg_dump args : keeps_files (pg_dump sys self args).
Proof.
  intros w. unfold pg_dump.
  destruct (forallb _ _); [| done]. now destruct (pg_dump_program _ _ _ _).
Qed.

Lemma keeps_files_print rows : keeps_files (print rows).
Proof. now intros w. Qed.

Lemma keeps_files_dump_schema : keeps_files (dump_schema sys make_options self).
Proof.
  apply keeps_files_bind; [apply keeps_files_run |].
  intros ?. apply keeps_files_pg_dump.
Qed.

Lemma keeps_files_dump_sequences :
  keeps_files (dump_sequences sys make_options self).
Proof.
  apply keeps_files_bind; [apply keeps_files_run |].
  intros ?. apply keeps_files_pg_dump.
Qed.

Lemma keeps_files_related_queries_dict table_name rows acc :
  keeps_files (related_queries_dict table_name rows acc).
Proof.
  revert acc. induction rows as [| item rest IH]; intros acc;
    cbn [related_queries_dict].
  - apply keeps_files_ret.
  - rewrite related_items_query_flat. apply IH.
Qed.

Lemma keeps_files_get_related_objects_queries table_name full_tables :
  keeps_files (get_related_objects_queries sys table_name full_tables).
Proof.
  apply keeps_files_bind; [apply keeps_files_run |].
  intros ?. apply keeps_files_related_queries_dict.
Qed.

End KeepsFiles.

Lemma appends_keeps_files {A} file (m : M A) :
  keeps_files m -> appends file m [].
Proof.
  intros Hm w z Hz Hc. exists []. rewrite Hm, app_nil_r. split.
  - rewrite Hz. destruct z; simpl in *; now subst.
  - now destruct (m w).1.
Qed.

Lemma appends_bind {A B} file (m : M A) (k : A -> M B) n1 n2 :
  appends file m n1 -> (forall a, appends file (k a) n2) ->
  appends file (bind m k) (n1 ++ n2).
Proof.
  intros Hm Hk w z Hz Hc.
  destruct (Hm w z Hz Hc) as (new1 & Hf & Hr). unfold bind.
  destruct (m w) as [[e | a] w1]; simpl in *.
  - exists new1. split; [done |]. now apply prefix_app_r.
  - destruct (Hk a w1 _ Hf eq_refl) as (new2 & Hf2 & Hr2). simpl in *.
    exists (new1 ++ new2). rewrite app_assoc. split; [done |].
    rewrite map_app, Hr.
    destruct (k a w1).1; [now apply prefix_app | now rewrite Hr2].
Qed.

Lemma appends_writestr file arcname data :
  appends file (writestr file arcname data) [arcname].
Proof.
  intros w z Hz Hc. unfold writestr. rewrite Hz, Hc. simpl.
  exists [(arcname, data)]. now rewrite lookup_insert_eq.
Qed.

Lemma appends_for_each {A} file (body : A -> M unit) (name : A -> string) xs :
  (forall x, appends file (body x) [name x]) ->
  appends file (for_each xs body) (map name xs).
Proof.
  intros Hbody. induction xs as [| x xs IH]; simpl.
  - apply appends_keeps_files, keeps_files_ret.
  - apply (appends_bind file (body x) _ [name x]); [apply Hbody | now intros].
Qed.

Section Appends.

Variable sys : System.
Variable make_options : string -> list string -> list string.
Variable self : Dumper.

Lemma appends_write_csv file table_name sql :
  appends file (write_csv sys file table_name sql) [csv_path table_name].
Proof.
  apply (appends_bind file _ _ [] [_]).
  - apply appends_keeps_files, keeps_files_export_to_csv.
  - intros data. apply appends_writestr.
Qed.

Lemma appends_write_schema file :
  appends file (write_schema sys make_options self file) ["dump/schema.sql"].
Proof.
  apply (appends_bind file _ _ [] [_]).
  - apply appends_keeps_files, keeps_files_dump_schema.
  - intros data. apply appends_writestr.
Qed.

Lemma appends_write_sequences file :
  appends file (write_sequences sys make_options self file)
    ["dump/sequences.sql"].
Proof.
  apply (appends_bind file _ _ [] [_]).
  - apply appends_keeps_files, keeps_files_dump_sequences.
  - intros data. apply appends_writestr.
Qed.

Lemma appends_write_full_tables file tables :
  appends file (write_full_tables sys file tables) (map csv_path tables).
Proof.
  apply appends_for_each. intros table_name.
  apply (appends_bind file _ _ [] [_]).
  - apply appends_keeps_files, keeps_files_get_related_objects_queries.
  - intros _. apply appends_write_csv.
Qed.

Lemma appends_write_partial_tables file config full_tables :
  appends file (write_partial_tables sys file config full_tables)
    (map (fun item => csv_path item.1) config).
Proof.
  apply appends_for_each. intros [table_name sql]. simpl.
  apply (appends_bind file _ _ [] [_]).
  { apply appends_keeps_files, keeps_files_get_related_objects_queries. }
  intros _. apply (appends_bind file _ _ [] [_]).
  { apply appends_keeps_files, keeps_files_run. }
  intros rows. apply (appends_bind file _ _ [] [_]).
  { apply appends_keeps_files, keeps_files_print. }
  intros _. apply appends_write_csv.
Qed.

(** What [dump] leaves at [filename]: a closed archive whose members are
    named by [dump_names], all of them when [dump] returned, the first few
    of them when it raised. *)
Lemma dump_archive filename full_tables partial_tables w :
  writable sys filename = true ->
  exists z,
    files (dump sys make_options self filename full_tables partial_tables w).2
      !! filename = Some z
    /\ closed z = true
    /\ match (dump sys make_options self filename full_tables partial_tables w).1 with
       | inr _ => namelist z = dump_names full_tables partial_tables
       | inl _ => namelist z `prefix_of` dump_names full_tables partial_tables
       end.
Proof.
  intros Hw. unfold dump, with_Dump. rewrite Hw.
  set (ft := Py.or_else Py.truthy_list full_tables []).
  set (pt := Py.or_else Py.truthy_list partial_tables []).
  set (opened := Build_World _ _ _ _ _).
  assert (Hbody : appends filename
    (write_schema sys make_options self filename ;;;
     write_sequences sys make_options self filename ;;;
     write_full_tables sys filename ft ;;;
     write_partial_tables sys filename pt ft)
    (dump_names full_tables partial_tables)).
  { unfold dump_names. fold ft pt.
    apply (appends_bind filename _ _ [_] (_ :: _)); [apply appends_write_schema |].
    intros _.
    apply (appends_bind filename _ _ [_]); [apply appends_write_sequences |].
    intros _.
    apply appends_bind; [apply appends_write_full_tables |].
    intros _. apply appends_write_partial_tables. }
  destruct (Hbody opened {| entries := []; closed := false |})
    as (new & Hf & Hr); [apply lookup_insert_eq | done |].
  match type of Hf with
  | context [(?b).2] => destruct b as [r w1]
  end. simpl in *.
  eexists. unfold close_archive. simpl. rewrite Hf, lookup_insert_eq.
  split; [done |]. split; [done |]. exact Hr.
Qed.

End Appends.

Lemma same_transaction_refl c : same_transaction c c.
Proof. now repeat split. Qed.

Lemma same_transaction_trans c1 c2 c3 :
  same_transaction c1 c2 -> same_transaction c2 c3 -> same_transaction c1 c3.
Proof.
  intros (H1 & H2 & H3) (K1 & K2 & K3). repeat split; congruence.
Qed.

Lemma extends_same w w' :
  cached_connection w' = cached_connection w -> trace w' = trace w ->
  conn_ok w -> extends w w'.
Proof.
  intros Hc Ht Hok. split.
  - intros c. rewrite Hc. apply Hok.
  - intros c H _. exists c. rewrite Hc. split; [done |].
    apply same_transaction_refl.
  - exists []. rewrite app_nil_r. split; [done |]. intros ? ? ? ? [].
Qed.

Lemma extends_refl w : conn_ok w -> extends w w.
Proof. now apply extends_same. Qed.

Lemma extends_trans w1 w2 w3 : extends w1 w2 -> extends w2 w3 -> extends w1 w3.
Proof.
  intros [_ F12 (e12 & T12 & R12)] [Hok F23 (e23 & T23 & R23)]. split.
  - exact Hok.
  - intros c H1 Hs.
    destruct (F12 c H1 Hs) as (c2 & H2 & S12).
    destruct (F23 c2 H2) as (c3 & H3 & S23).
    { destruct S12 as (_ & _ & ->). exact Hs. }
    exists c3. split; [done |]. now apply (same_transaction_trans c c2 c3).
  - exists (e12 ++ e23). rewrite T23, T12, app_assoc. split; [done |].
    intros cid v sql ps [H | H]%in_app_or.
    + destruct (R12 _ _ _ _ H) as (c2 & H2 & Hid & Hl & Hs).
      destruct (F23 c2 H2) as (c3 & H3 & K1 & K2 & K3).
      { rewrite Hs. now eexists. }
      exists c3. repeat split; congruence.
    + exact (R23 _ _ _ _ H).
Qed.

Lemma transacts_ret {A} (a : A) : transacts (ret a).
Proof. intros w. apply extends_refl. Qed.

Lemma transacts_raise {A} e : transacts (@raise A e).
Proof. intros w. apply extends_refl. Qed.

Lemma transacts_bind {A B} (m : M A) (k : A -> M B) :
  transacts m -> (forall a, transacts (k a)) -> transacts (bind m k).
Proof.
  intros Hm Hk w Hok. specialize (Hm w Hok). unfold bind.
  destruct (m w) as [[e | a] w1]; simpl in *; [done |].
  eapply extends_trans; [exact Hm |]. apply Hk, Hm.
Qed.

Lemma transacts_for_each {A} (body : A -> M unit) xs :
  (forall x, transacts (body x)) -> transacts (for_each xs body).
Proof.
  intros Hbody. induction xs as [| x xs IH]; simpl.
  - apply transacts_ret.
  - apply transacts_bind; [apply Hbody | now intros].
Qed.

Lemma transacts_writestr file arcname data :
  transacts (writestr file arcname data).
Proof.
  intros w Hok. unfold writestr.
  destruct (files w !! file) as [z |]; [| now apply extends_refl].
  destruct (closed z); [now apply extends_refl |].
  now apply extends_same.
Qed.

Section Transacts.

Variable sys : System.
Variable make_options : string -> list string -> list string.
Variable self : Dumper.

Lemma connection_cached w c w' :
  connection sys w = (inr c, w') -> cached_connection w' = Some c.
Proof.
  unfold connection. destruct (cached_connection w) eqn:E.
  - now intros [= <- <-].
  - destruct (accepts_connections sys); [| done]. now intros [= <- <-].
Qed.

Lemma transacts_connection : transacts (connection sys).
Proof.
  intros w Hok. unfold connection.
  destruct (cached_connection w) eqn:E; [now apply extends_refl |].
  destruct (accepts_connections sys); [| now apply extends_refl].
  simpl. split; simpl.
  - now intros c [= <-].
  - intros c. now rewrite E.
  - eexists. split; [done |]. intros cid v sql ps [H | []]. discriminate.
Qed.

Lemma execute_extends {R} c sql ps (answer : Pg.Database -> option R) w :
  cached_connection w = Some c -> conn_ok w ->
  extends w (execute sys c sql ps answer w).2.
Proof.
  intros Hc Hok. pose proof (Hok c Hc) as Hrr.
  unfold execute, visible. simpl. rewrite Hrr. simpl.
  set (now := schedule sys (time w)).
  assert (forall b, extends w
    {| files := files w;
       cached_connection :=
         Some {| conn_id := conn_id c; isolation_level := REPEATABLE_READ;
                 snapshot := Some (default now (snapshot c));
                 aborted := b |};
       connections := connections w;
       time := S (time w);
       trace := trace w ++ [Statement (conn_id c) (default now (snapshot c)) sql ps] |})
    as H.
  { intros b. split; simpl.
    - now intros ? [= <-].
    - intros c0. rewrite Hc. intros [= <-] [v Hv].
      eexists. split; [reflexivity |]. repeat split; simpl; [done |].
      now rewrite Hv.
    - eexists. split; [done |]. intros cid v q ps0 [[= <- <- <- <-] | []].
      eexists. split; [reflexivity |]. now repeat split. }
  destruct (aborted c); [apply H |]. destruct (answer _); apply H.
Qed.

Lemma transacts_run {R} sql ps (rows : Pg.Database -> list R) :
  transacts (run sys sql ps rows).
Proof.
  intros w Hok. unfold run, cursor, bind.
  pose proof (transacts_connection w Hok) as H1.
  destruct (connection sys w) as [[e | c] w1] eqn:E; [exact H1 |].
  eapply extends_trans; [exact H1 |].
  apply execute_extends; [now apply connection_cached in E | apply H1].
Qed.

Lemma transacts_export_to_csv sql : transacts (export_to_csv sys sql).
Proof.
  intros w Hok. unfold export_to_csv, cursor, bind.
  pose proof (transacts_connection w Hok) as H1.
  destruct (connection sys w) as [[e | c] w1] eqn:E; [exact H1 |].
  eapply extends_trans; [exact H1 |].
  apply execute_extends; [now apply connection_cached in E | apply H1].
Qed.

Lemma transacts_pg_dump args : transacts (pg_dump sys self args).
Proof.
  intros w Hok. unfold pg_dump.
  destruct (forallb _ _); [| now apply extends_refl].
  destruct (pg_dump_program _ _ _ _); [| now apply extends_refl].
  simpl. split; simpl.
  - exact Hok.
  - intros c H _. exists c. split; [done |]. apply same_transaction_refl.
  - eexists. split; [done |]. intros cid v sql ps [H | []]. discriminate.
Qed.

Lemma transacts_print rows : transacts (print rows).
Proof.
  intros w Hok. split; simpl.
  - exact Hok.
  - intros c H _. exists c. split; [done |]. apply same_transaction_refl.
  - eexists. split; [done |]. intros cid v sql ps [H | []]. discriminate.
Qed.

Lemma transacts_related_queries_dict table_name rows acc :
  transacts (related_queries_dict table_name rows acc).
Proof.
  revert acc. induction rows as [| item rest IH]; intros acc;
    cbn [related_queries_dict].
  - apply transacts_ret.
  - rewrite related_items_query_flat. apply IH.
Qed.

Lemma transacts_get_related_objects_queries table_name full_tables :
  transacts (get_related_objects_queries sys table_name full_tables).
Proof.
  apply transacts_bind; [apply transacts_run |].
  intros ?. apply transacts_related_queries_dict.
Qed.

Lemma transacts_write_csv file table_name sql :
  transacts (write_csv sys file table_name sql).
Proof.
  apply transacts_bind; [apply transacts_export_to_csv |].
  intros ?. apply transacts_writestr.
Qed.

Lemma transacts_write_schema file :
  transacts (write_schema sys make_options self file).
Proof.
  apply transacts_bind; [| intros ?; apply transacts_writestr].
  apply transacts_bind; [apply transacts_run |].
  intros ?. apply transacts_pg_dump.
Qed.

Lemma transacts_write_sequences file :
  transacts (write_sequences sys make_options self file).
Proof.
  apply transacts_bind; [| intros ?; apply transacts_writestr].
  apply transacts_bind; [apply transacts_run |].
  intros ?. apply transacts_pg_dump.
Qed.

Lemma transacts_write_full_tables file tables :
  transacts (write_full_tables sys file tables).
Proof.
  apply transacts_for_each. intros table_name.
  apply transacts_bind; [apply transacts_get_related_objects_queries |].
  intros _. apply transacts_write_csv.
Qed.

Lemma transacts_write_partial_tables file config full_tables :
  transacts (write_partial_tables sys file config full_tables).
Proof.
  apply transacts_for_each. intros [table_name sql].
  apply transacts_bind; [apply transacts_get_related_objects_queries |].
  intros _. apply transacts_bind; [apply transacts_run |].
  intros rows. apply transacts_bind; [apply transacts_print |].
  intros _. apply transacts_write_csv.
Qed.

Lemma transacts_dump filename full_tables partial_tables :
  transacts (dump sys make_options self filename full_tables partial_tables).
Proof.
  intros w Hok. unfold dump, with_Dump.
  destruct (writable sys filename); [| now apply extends_refl].
  set (opened := Build_World _ _ _ _ _).
  set (body := bind _ _).
  assert (Hb : transacts body).
  { apply transacts_bind; [apply transacts_write_schema |]. intros _.
    apply transacts_bind; [apply transacts_write_sequences |]. intros _.
    apply transacts_bind; [apply transacts_write_full_tables |]. intros _.
    apply transacts_write_partial_tables. }
  specialize (Hb opened Hok).
  destruct (body opened) as [r w1]. simpl in *.
  destruct Hb as [H1 H2 H3]. split; simpl; done.
Qed.

End Transacts.

(** ** Sending statements *)

Lemma statements_app evs1 evs2 :
  statements (evs1 ++ evs2) = statements evs1 ++ statements evs2.
Proof. unfold statements. now rewrite flat_map_app. Qed.

Ltac issued :=
  simpl; split; [reflexivity | first [reflexivity | apply prefix_nil]].

Lemma issues_ret {A} (a : A) : issues (ret a) [].
Proof. intros w. exists []. now rewrite app_nil_r. Qed.

Lemma issues_bind {A B} (m : M A) (k : A -> M B) s1 s2 :
  issues m s1 -> (forall a, issues (k a) s2) -> issues (bind m k) (s1 ++ s2).
Proof.
  intros Hm Hk w. destruct (Hm w) as (evs1 & Ht & Hr). unfold bind.
  destruct (m w) as [[e | a] w1]; simpl in *.
  - exists evs1. split; [done |]. now apply prefix_app_r.
  - destruct (Hk a w1) as (evs2 & Ht2 & Hr2).
    exists (evs1 ++ evs2). rewrite Ht2, Ht, app_assoc. split; [done |].
    rewrite statements_app, Hr.
    destruct (k a w1).1; [now apply prefix_app | now rewrite Hr2].
Qed.

Lemma issues_for_each {A} (body : A -> M unit)
  (stmts : A -> list (string * Py.params)) xs :
  (forall x, issues (body x) (stmts x)) ->
  issues (for_each xs body) (flat_map stmts xs).
Proof.
  intros Hbody. induction xs as [| x xs IH]; simpl.
  - apply issues_ret.
  - apply issues_bind; [apply Hbody | now intros].
Qed.

Lemma issues_writestr file arcname data : issues (writestr file arcname data) [].
Proof.
  intros w. exists []. rewrite app_nil_r. unfold writestr.
  destruct (files w !! file) as [z |]; [destruct (closed z) |]; issued.
Qed.

Section Issues.

Variable sys : System.
Variable make_options : string -> list string -> list string.
Variable self : Dumper.

Lemma issues_connection : issues (connection sys) [].
Proof.
  intros w. unfold connection.
  destruct (cached_connection w).
  { exists []. now rewrite app_nil_r. }
  destruct (accepts_connections sys).
  - now eexists [_].
  - exists []. rewrite app_nil_r. issued.
Qed.

Lemma issues_execute {R} c sql ps (answer : Pg.Database -> option R) :
  issues (execute sys c sql ps answer) [(sql, ps)].
Proof.
  intros w. unfold execute. eexists [_].
  destruct (aborted c); [issued |]. destruct (answer _); issued.
Qed.

Lemma issues_run {R} sql ps (rows : Pg.Database -> list R) :
  issues (run sys sql ps rows) [(sql, ps)].
Proof.
  apply (issues_bind _ _ [] [_]); [apply issues_connection |].
  intros c. apply issues_execute.
Qed.

Lemma issues_export_to_csv sql :
  issues (export_to_csv sys sql) [(copy_statement sql, [])].
Proof.
  apply (issues_bind _ _ [] [_]); [apply issues_connection |].
  intros c. apply issues_execute.
Qed.

Lemma issues_print rows : issues (print rows) [].
Proof. intros w. now eexists [_]. Qed.

Lemma issues_related_queries_dict table_name rows acc :
  issues (related_queries_dict table_name rows acc) [].
Proof.
  revert acc. induction rows as [| item rest IH]; intros acc;
    cbn [related_queries_dict].
  - apply issues_ret.
  - rewrite related_items_query_flat. apply IH.
Qed.

Lemma issues_get_related_objects_queries table_name full_tables :
  issues (get_related_objects_queries sys table_name full_tables)
    [relations_statement NON_RECURSIVE_RELATIONS_QUERY table_name full_tables].
Proof.
  apply (issues_bind _ _ [_] []); [apply issues_run |].
  intros ?. apply issues_related_queries_dict.
Qed.

Lemma issues_write_csv file table_name sql :
  issues (write_csv sys file table_name sql) [(copy_statement sql, [])].
Proof.
  apply (issues_bind _ _ [_] []); [apply issues_export_to_csv |].
  intros ?. apply issues_writestr.
Qed.

Lemma issues_write_full_tables file tables :
  issues (write_full_tables sys file tables)
    (flat_map (full_table_statements tables) tables).
Proof.
  unfold write_full_tables. generalize tables at 2 3. intros excluded.
  apply issues_for_each. intros table_name.
  apply (issues_bind _ _ [_] [_]);
    [apply issues_get_related_objects_queries |].
  intros _. apply issues_write_csv.
Qed.

Lemma issues_write_partial_tables file config full_tables :
  issues (write_partial_tables sys file config full_tables)
    (flat_map (partial_table_statements full_tables) config).
Proof.
  apply issues_for_each. intros [table_name sql].
  apply (issues_bind _ _ [_] [_; _]);
    [apply issues_get_related_objects_queries |].
  intros _. apply (issues_bind _ _ [_] [_]); [apply issues_run |].
  intros rows. apply (issues_bind _ _ [] [_]); [apply issues_print |].
  intros _. apply issues_write_csv.
Qed.

End Issues.

Lemma returns_ret {A} P (a : A) : returns P (ret a).
Proof. intros w Hw. now exists a, w. Qed.

Lemma returns_bind {A B} P (m : M A) (k : A -> M B) :
  returns P m -> (forall a, returns P (k a)) -> returns P (bind m k).
Proof.
  intros Hm Hk w Hw. destruct (Hm w Hw) as (a & w1 & E & H1).
  destruct (Hk a w1 H1) as (b & w2 & E2 & H2).
  exists b, w2. split; [| done]. unfold bind. now rewrite E.
Qed.

Lemma returns_for_each {A} P (body : A -> M unit) xs :
  (forall x, In x xs -> returns P (body x)) -> returns P (for_each xs body).
Proof.
  induction xs as [| x xs IH]; intros Hbody; simpl.
  - apply returns_ret.
  - apply returns_bind; [apply Hbody; now left |].
    intros _. apply IH. intros y Hy. apply Hbody. now right.
Qed.

Section Returns.

Variable sys : System.
Variable make_options : string -> list string -> list string.
Variable self : Dumper.
Variable file : string.

Hypothesis pg_dump_runs :
  forall db argv env, is_Some (pg_dump_program sys db argv env).

Hypothesis port_is_str : Py.is_str (port self) = true.

(** The connection a served world caches is handed out as it is. *)
Lemma serving_connection w :
  serving sys file w ->
  exists c w', connection sys w = (inr c, w')
               /\ serving sys file w'
               /\ cached_connection w' = Some c.
Proof.
  intros (Hf & Hc & Hh). unfold connection.
  destruct (cached_connection w) as [c |] eqn:E.
  - exists c, w. repeat split; try done. right. now rewrite E.
  - destruct Hc as [-> | [c Hc]]; [| done].
    eexists _, _. split; [done |]. split; [| done].
    split; [done |]. split; [right; now eexists |].
    now intros c [= <-].
Qed.

Lemma returns_connection : returns (serving sys file) (connection sys).
Proof.
  intros w Hw. destruct (serving_connection w Hw) as (c & w' & E & H & _).
  now exists c, w'.
Qed.

Lemma returns_execute_cached {R} sql ps (answer : Pg.Database -> option R) :
  (forall version, is_Some (answer (history sys version))) ->
  returns (serving sys file)
    (c <- cursor sys ;; execute sys c sql ps answer).
Proof.
  intros Hans w Hw.
  destruct (serving_connection w Hw) as (c & w1 & E & (Hf & Hc & Hh) & Hcc).
  unfold cursor, bind. rewrite E. unfold execute. rewrite (Hh c Hcc).
  match goal with |- context [answer (history sys ?v)] =>
    destruct (Hans v) as [r ->] end.
  eexists _, _. split; [done |]. split; [done |].
  split; [right; now eexists |]. now intros c' [= <-].
Qed.

Lemma returns_run {R} sql ps (rows : Pg.Database -> list R) :
  returns (serving sys file) (run sys sql ps rows).
Proof. apply returns_execute_cached. now eexists. Qed.

Lemma returns_export_to_csv sql :
  (forall version,
      is_Some (Pg.copy (history sys version) (copy_statement sql))) ->
  returns (serving sys file) (export_to_csv sys sql).
Proof. intros Hcopy. now apply returns_execute_cached. Qed.

Lemma returns_pg_dump args : returns (serving sys file) (pg_dump sys self args).
Proof.
  intros w Hw. unfold pg_dump.
  cbn [forallb app Py.is_str]. rewrite port_is_str.
  replace (forallb Py.is_str (map Py.Str args)) with true
    by (induction args as [| a args IH]; [done | exact IH]).
  cbn [andb].
  match goal with |- context [pg_dump_program sys ?db ?argv ?env] =>
    destruct (pg_dump_runs db argv env) as [out ->] end.
  now eexists _, _.
Qed.

Lemma returns_print rows : returns (serving sys file) (print rows).
Proof. intros w Hw. now eexists _, _. Qed.

Lemma returns_writestr arcname data :
  returns (serving sys file) (writestr file arcname data).
Proof.
  intros w [(z & Hz & Hcl) Hc]. unfold writestr. rewrite Hz, Hcl.
  eexists _, _. split; [done |]. split; [| done]. simpl.
  eexists. now rewrite lookup_insert_eq.
Qed.

Lemma returns_related_queries_dict table_name rows acc :
  returns (serving sys file) (related_queries_dict table_name rows acc).
Proof.
  revert acc. induction rows as [| item rest IH]; intros acc;
    cbn [related_queries_dict].
  - apply returns_ret.
  - rewrite related_items_query_flat. apply IH.
Qed.

Lemma returns_get_related_objects_queries table_name full_tables :
  returns (serving sys file)
    (get_related_objects_queries sys table_name full_tables).
Proof.
  apply returns_bind; [apply returns_run |].
  intros ?. apply returns_related_queries_dict.
Qed.

Lemma returns_write_csv table_name sql :
  (forall version,
      is_Some (Pg.copy (history sys version) (copy_statement sql))) ->
  returns (serving sys file) (write_csv sys file table_name sql).
Proof.
  intros Hcopy. apply returns_bind; [now apply returns_export_to_csv |].
  intros ?. apply returns_writestr.
Qed.

Lemma returns_write_schema :
  returns (serving sys file) (write_schema sys make_options self file).
Proof.
  apply returns_bind; [| intros ?; apply returns_writestr].
  apply returns_bind; [apply returns_run |].
  intros ?. apply returns_pg_dump.
Qed.

Lemma returns_write_sequences :
  returns (serving sys file) (write_sequences sys make_options self file).
Proof.
  apply returns_bind; [| intros ?; apply returns_writestr].
  apply returns_bind; [apply returns_run |].
  intros ?. apply returns_pg_dump.
Qed.

Lemma returns_write_full_tables tables :
  (forall t version, In t tables ->
      is_Some (Pg.copy (history sys version)
                 (copy_statement ("SELECT * FROM " +:+ t)))) ->
  returns (serving sys file) (write_full_tables sys file tables).
Proof.
  intros Hcopy. unfold write_full_tables. generalize tables at 2.
  intros excluded. apply returns_for_each. intros t Ht.
  apply returns_bind; [apply returns_get_related_objects_queries |].
  intros _. apply returns_write_csv. intros version. now apply Hcopy.
Qed.

Lemma returns_write_partial_tables config full_tables :
  (forall item version, In item config ->
      is_Some (Pg.copy (history sys version) (copy_statement item.2))) ->
  returns (serving sys file)
    (write_partial_tables sys file config full_tables).
Proof.
  intros Hcopy. apply returns_for_each. intros [t sql] Ht.
  apply returns_bind; [apply returns_get_related_objects_queries |].
  intros _. apply returns_bind; [apply returns_run |].
  intros rows. apply returns_bind; [apply returns_print |].
  intros _. apply returns_write_csv. intros version.
  exact (Hcopy (t, sql) version Ht).
Qed.

End Returns.

(** [dump] returns whenever the archive can be opened, the server takes the
    connection or the cached one is in no aborted transaction, the port is
    a string, [pg_dump] runs and the server accepts every selection. *)
Lemma dump_returns sys make_options self filename full_tables partial_tables w :
  writable sys filename = true ->
  accepts_connections sys = true \/ is_Some (cached_connection w) ->
  healthy w ->
  Py.is_str (port self) = true ->
  (forall db argv env, is_Some (pg_dump_program sys db argv env)) ->
  (forall t version,
      In t (Py.or_else Py.truthy_list full_tables []) ->
      is_Some (Pg.copy (history sys version)
                 (copy_statement ("SELECT * FROM " +:+ t)))) ->
  (forall item version,
      In item (Py.or_else Py.truthy_list partial_tables []) ->
      is_Some (Pg.copy (history sys version) (copy_statement item.2))) ->
  exists w',
    dump sys make_options self filename full_tables partial_tables w
    = (inr tt, w').
Proof.
  intros Hw Hc Hh Hport Hpg Hfull Hpart. unfold dump, with_Dump. rewrite Hw.
  set (opened := Build_World _ _ _ _ _).
  set (body := bind _ _).
  assert (Hb : returns (serving sys filename) body).
  { apply returns_bind; [now apply returns_write_schema |]. intros _.
    apply returns_bind; [now apply returns_write_sequences |]. intros _.
    apply returns_bind; [now apply returns_write_full_tables |]. intros _.
    now apply returns_write_partial_tables. }
  destruct (Hb opened) as ([] & w1 & E & _).
  { split; [| split; [exact Hc | exact Hh]].
    eexists. split; [apply lookup_insert_eq | done]. }
  rewrite E. now eexists.
Qed.

(** * The relations queries *)

Lemma in_list_true x l : Pg.in_list x l = true <-> In x l.
Proof.
  unfold Pg.in_list. rewrite existsb_exists. split.
  - intros (y & Hy & ->%String.eqb_eq). exact Hy.
  - intros H. exists x. split; [exact H | apply String.eqb_refl].
Qed.

Lemma in_list_false x l : Pg.in_list x l = false <-> ~ In x l.
Proof.
  rewrite <- in_list_true. destruct (Pg.in_list x l); split; intros H;
    try done; now destruct H.
Qed.

Lemma truthy_list_false {A} (l : list A) : Py.truthy_list l = false -> l = [].
Proof. now destruct l. Qed.

(** ** The lookup on a catalog of single-column, uniquely named keys *)

Lemma flat_map_map_compose {A B C} (f : B -> list C) (g : A -> B) l :
  flat_map f (map g l) = flat_map (fun x => f (g x)) l.
Proof. induction l as [| x l IH]; simpl; [done | now rewrite IH]. Qed.

Lemma flat_map_ext_In {A B} (f g : A -> list B) l :
  (forall x, In x l -> f x = g x) -> flat_map f l = flat_map g l.
Proof.
  induction l as [| x l IH]; intros H; simpl; [done |].
  rewrite (H x) by now left. rewrite IH; [done |].
  intros y Hy. apply H. now right.
Qed.

Lemma filter_flat_map {A B} (p : B -> bool) (f : A -> list B) l :
  List.filter p (flat_map f l) = flat_map (fun x => List.filter p (f x)) l.
Proof.
  induction l as [| x l IH]; simpl; [done |].
  now rewrite List.filter_app, IH.
Qed.

Lemma map_flat_map {A B C} (g : B -> C) (f : A -> list B) l :
  map g (flat_map f l) = flat_map (fun x => map g (f x)) l.
Proof.
  induction l as [| x l IH]; simpl; [done |]. now rewrite map_app, IH.
Qed.

Lemma flat_map_filter {A B} (p : A -> bool) (f : A -> list B) l :
  flat_map f (List.filter p l) = flat_map (fun x => if p x then f x else []) l.
Proof.
  induction l as [| x l IH]; simpl; [done |].
  destruct (p x); simpl; now rewrite IH.
Qed.

Lemma filter_all {A} (p : A -> bool) l :
  (forall x, In x l -> p x = true) -> List.filter p l = l.
Proof.
  induction l as [| x l IH]; intros H; simpl; [done |].
  rewrite (H x) by now left. rewrite IH; [done |].
  intros y Hy. apply H. now right.
Qed.

Lemma filter_none {A} (p : A -> bool) l :
  (forall x, In x l -> p x = false) -> List.filter p l = [].
Proof.
  induction l as [| x l IH]; intros H; simpl; [done |].
  rewrite (H x) by now left. apply IH. intros y Hy. apply H. now right.
Qed.

(** In a catalog where every constraint has a name of its own, the rows a
    view holds under the name of a constraint are the rows of that
    constraint. *)
Lemma rows_of_constraint {Row} (rows : Pg.key_constraint -> list Row)
  (named : string -> Row -> bool) l c :
  (forall c' r n, In r (rows c') ->
                  named n r = String.eqb n (Pg.con_name c')) ->
  NoDup (map Pg.con_name l) -> In c l ->
  List.filter (named (Pg.con_name c)) (flat_map rows l) = rows c.
Proof.
  intros Hnamed. induction l as [| c0 l IH]; intros Hnd Hin; [done |].
  simpl in *. apply NoDup_cons in Hnd as [Hc0 Hnd].
  rewrite List.filter_app.
  assert (Hother : forall c1 l1, ~ In (Pg.con_name c1) (map Pg.con_name l1) ->
            List.filter (named (Pg.con_name c1)) (flat_map rows l1) = []).
  { intros c1 l1 Hc1. rewrite filter_flat_map.
    induction l1 as [| c2 l1 IH1]; simpl; [done |].
    rewrite IH1 by (intros H; apply Hc1; now right).
    rewrite app_nil_r. apply filter_none. intros r Hr.
    rewrite (Hnamed c2 r _ Hr). apply String.eqb_neq.
    intros E. apply Hc1. left. now rewrite E. }
  destruct Hin as [-> | Hin].
  - rewrite Hother by (intros H; now apply Hc0, list_elem_of_In).
    rewrite app_nil_r. apply filter_all. intros r Hr.
    rewrite (Hnamed c r _ Hr). apply String.eqb_refl.
  - rewrite IH by done.
    rewrite filter_none; [done |]. intros r Hr.
    rewrite (Hnamed c0 r _ Hr). apply String.eqb_neq.
    intros E. apply Hc0. rewrite <- E.
    apply list_elem_of_In, in_map, Hin.
Qed.

(** The rows of the join that come from one constraint. *)
Lemma joined_by_constraint db :
  NoDup (map Pg.con_name (Pg.constraints db)) ->
  Pg.joined db
  = flat_map
      (fun c =>
         flat_map
           (fun column =>
              map
                (fun ref =>
                   ({| Pg.tc_constraint_name := Pg.con_name c;
                       Pg.tc_table_name := Pg.con_table c;
                       Pg.tc_constraint_type := Pg.con_type c |},
                    {| Pg.kcu_constraint_name := Pg.con_name c;
                       Pg.kcu_column_name := column |},
                    {| Pg.ccu_constraint_name := Pg.con_name c;
                       Pg.ccu_table_name :=
                         if String.eqb (Pg.con_type c) "FOREIGN KEY"
                         then Pg.con_ref_table c else Pg.con_table c;
                       Pg.ccu_column_name := ref |}))
                (if String.eqb (Pg.con_type c) "FOREIGN KEY"
                 then Pg.con_ref_columns c else Pg.con_columns c))
           (Pg.con_columns c))
      (Pg.constraints db).
Proof.
  intros Hnd. unfold Pg.joined, Pg.table_constraints.
  rewrite flat_map_map_compose. apply flat_map_ext_In. intros c Hc. simpl.
  unfold Pg.key_column_usage.
  rewrite (rows_of_constraint
             (fun c => map (fun column =>
                {| Pg.kcu_constraint_name := Pg.con_name c;
                   Pg.kcu_column_name := column |}) (Pg.con_columns c))
             (fun n r => String.eqb n (Pg.kcu_constraint_name r))
             (Pg.constraints db) c); [| | done | done].
  2:{ intros c' r n (column & <- & _)%in_map_iff. reflexivity. }
  rewrite flat_map_map_compose. apply flat_map_ext_In. intros column _. simpl.
  unfold Pg.constraint_column_usage.
  rewrite (rows_of_constraint
             (fun c =>
                if String.eqb (Pg.con_type c) "FOREIGN KEY" then
                  map (fun column =>
                    {| Pg.ccu_constraint_name := Pg.con_name c;
                       Pg.ccu_table_name := Pg.con_ref_table c;
                       Pg.ccu_column_name := column |}) (Pg.con_ref_columns c)
                else
                  map (fun column =>
                    {| Pg.ccu_constraint_name := Pg.con_name c;
                       Pg.ccu_table_name := Pg.con_table c;
                       Pg.ccu_column_name := column |}) (Pg.con_columns c))
             (fun n r => String.eqb (Pg.ccu_constraint_name r) n)
             (Pg.constraints db) c); [| | done | done].
  2:{ intros c' r n Hr. rewrite String.eqb_sym.
      destruct (String.eqb (Pg.con_type c') "FOREIGN KEY");
        apply in_map_iff in Hr as (? & <- & _); reflexivity. }
  destruct (String.eqb (Pg.con_type c) "FOREIGN KEY");
    now rewrite map_map.
Qed.

Lemma simple_keys_names db :
  Spec.simple_keys db = true -> NoDup (map Pg.con_name (Pg.constraints db)).
Proof.
  unfold Spec.simple_keys. intros [H _]%andb_prop.
  now apply bool_decide_eq_true in H.
Qed.

Lemma simple_keys_columns db c :
  Spec.simple_keys db = true -> In c (Pg.constraints db) ->
  String.eqb (Pg.con_type c) "FOREIGN KEY" = true ->
  exists column ref,
    Pg.con_columns c = [column] /\ Pg.con_ref_columns c = [ref].
Proof.
  unfold Spec.simple_keys. intros [_ H]%andb_prop Hc Hfk.
  rewrite forallb_forall in H. specialize (H c Hc). rewrite Hfk in H.
  simpl in H. apply andb_prop in H as [H1 H2].
  apply Nat.eqb_eq in H1, H2.
  destruct (Pg.con_columns c) as [| column [|]]; try discriminate.
  destruct (Pg.con_ref_columns c) as [| ref [|]]; try discriminate.
  now exists column, ref.
Qed.

(** On such a catalog either lookup returns the edges it is asked for, each
    once and in the order of the catalog. *)
Lemma relations_simple_keys db recursive table full_tables :
  Spec.simple_keys db = true ->
  Pg.relations recursive (Py.truthy_list full_tables) table full_tables db
  = List.filter (Spec.edge_selected recursive table full_tables)
      (Spec.foreign_key_edges db).
Proof.
  intros Hs. unfold Pg.relations, Spec.foreign_key_edges.
  rewrite (joined_by_constraint db (simple_keys_names db Hs)).
  rewrite filter_flat_map, map_flat_map, flat_map_filter, filter_flat_map.
  apply flat_map_ext_In. intros c Hc.
  destruct (String.eqb (Pg.con_type c) "FOREIGN KEY") eqn:Hfk.
  - destruct (simple_keys_columns db c Hs Hc Hfk) as (column & ref & -> & ->).
    simpl. unfold Pg.where_relations, Spec.edge_selected. simpl.
    rewrite Hfk. simpl.
    replace (if Py.truthy_list full_tables
             then negb (Pg.in_list (Pg.con_ref_table c) full_tables)
             else true)
      with (negb (Pg.in_list (Pg.con_ref_table c) full_tables))
      by now destruct full_tables.
    destruct (String.eqb (Pg.con_table c) table), recursive,
      (String.eqb (Pg.con_table c) (Pg.con_ref_table c)),
      (negb (Pg.in_list (Pg.con_ref_table c) full_tables)); reflexivity.
  - rewrite filter_none; [done |].
    intros [[tc kcu] ccu] (column & _ & (ref & <- & _)%in_map_iff)%in_flat_map.
    unfold Pg.where_relations. simpl. now rewrite Hfk.
Qed.

(** C8: on a catalog where every constraint has a name of its own and every
    foreign key is on a single column, the foreign-key lookup, as
    [get_related_objects_queries] runs it (non-recursive) and as
    [write_partial_tables] runs it (recursive), returns exactly the
    foreign-key edges of the given table whose two tables differ,
    respectively coincide, and in both modes leaves out every edge into a
    table of the exclusion set. *)
Theorem foreign_key_lookup_modes (db : Pg.Database) (recursive : bool)
  (table : string) (full_tables : list string) (e : Pg.relation) :
  Spec.simple_keys db = true ->
  In e (Pg.relations recursive (Py.truthy_list full_tables) table full_tables db)
  <->
  In e (Spec.foreign_key_edges db)
  /\ Pg.table_name e = table
  /\ (if recursive
      then Pg.table_name e = Pg.foreign_table_name e
      else Pg.table_name e <> Pg.foreign_table_name e)
  /\ ~ In (Pg.foreign_table_name e) full_tables.
Proof.
  intros Hs. rewrite (relations_simple_keys db recursive table full_tables Hs).
  rewrite filter_In. unfold Spec.edge_selected.
  rewrite !andb_true_iff, negb_true_iff, in_list_false, String.eqb_eq.
  destruct recursive.
  - rewrite String.eqb_eq. tauto.
  - rewrite negb_true_iff, String.eqb_neq. tauto.
Qed.

Lemma foreign_key_lookup_modes_witness :
  Spec.simple_keys (Fixture.database 0) = true
  /\ forall e,
       In e (Pg.relations false (Py.truthy_list ["tickets"]) "employees"
               ["tickets"] (Fixture.database 0))
       <->
       In e (Spec.foreign_key_edges (Fixture.database 0))
       /\ Pg.table_name e = "employees"
       /\ Pg.table_name e <> Pg.foreign_table_name e
       /\ ~ In (Pg.foreign_table_name e) ["tickets"].
Proof.
  split; [now vm_compute |]. intros e.
  apply (foreign_key_lookup_modes (Fixture.database 0) false "employees"
           ["tickets"] e).
  now vm_compute.
Defined.

(** C8 as first stated, for every catalog, fails: on a foreign key of two
    columns, [child (a, b)] referencing [parent (x, y)], the lookup pairs
    every referencing column with every referenced column.  It returns four
    rows, two of which, [a -> y] and [b -> x], are no edges of the key. *)
Lemma composite_key_lookup_pairs_columns :
  Spec.foreign_key_edges Fixture.composite_database
  = [Fixture.composite_edge "a" "x"; Fixture.composite_edge "b" "y"]
  /\ Pg.relations false (Py.truthy_list (@nil string)) "child" []
       Fixture.composite_database
     = [Fixture.composite_edge "a" "x"; Fixture.composite_edge "a" "y";
        Fixture.composite_edge "b" "x"; Fixture.composite_edge "b" "y"]
  /\ In (Fixture.composite_edge "a" "y")
       (Pg.relations false (Py.truthy_list (@nil string)) "child" []
          Fixture.composite_database)
  /\ ~ In (Fixture.composite_edge "a" "y")
         (Spec.foreign_key_edges Fixture.composite_database).
Proof.
  split; [reflexivity |]. split; [reflexivity |].
  split; [right; now left |].
  intros [H | [H | []]]; discriminate.
Qed.

(** * The child's environment *)

(** C9: every run of [pg_dump] that spawns the child hands it an environment
    that agrees with the ambient one on every variable other than
    PGPASSWORD; with a password configured (not [None], not empty) it is the
    ambient environment with PGPASSWORD set to the password, and with no
    password it is the ambient environment itself. *)
Theorem pg_dump_child_environment (sys : System) (self : Dumper)
  (args : list string) (w w' : World) (out : string) :
  pg_dump sys self args w = (inr out, w') ->
  exists argv env,
    trace w' = trace w ++ [Spawned argv env]
    /\ (forall k, k <> "PGPASSWORD" -> env !! k = environ sys !! k)
    /\ (forall p, password self = Some p -> p <> EmptyString ->
                  env = <["PGPASSWORD" := p]> (environ sys))
    /\ (password self = None \/ password self = Some EmptyString ->
        env = environ sys).
Proof.
  unfold pg_dump. destruct (forallb _ _); [| discriminate].
  destruct (pg_dump_program _ _ _ _); [| discriminate].
  intros [= _ <-]. simpl. eexists _, _. split; [reflexivity |].
  unfold pg_dump_environment. split; [| split].
  - intros k Hk. destruct (password self) as [p |]; [| done].
    destruct (Py.truthy_str p); [| done]. now rewrite lookup_insert_ne.
  - intros p -> Hp. now destruct p.
  - now intros [-> | ->].
Qed.

Lemma pg_dump_child_environment_witness :
  exists argv env,
    trace (pg_dump Fixture.system Fixture.dumper ["-s"] Fixture.world).2
    = trace Fixture.world ++ [Spawned argv env]
    /\ (forall k, k <> "PGPASSWORD" -> env !! k = environ Fixture.system !! k)
    /\ (forall p, password Fixture.dumper = Some p -> p <> EmptyString ->
                  env = <["PGPASSWORD" := p]> (environ Fixture.system))
    /\ (password Fixture.dumper = None
        \/ password Fixture.dumper = Some EmptyString ->
        env = environ Fixture.system).
Proof.
  exact (pg_dump_child_environment Fixture.system Fixture.dumper ["-s"]
           Fixture.world _ _ eq_refl).
Defined.

(** * The recursive template *)

(** C5: filled in for the edge [employees.manager_id -> employees.id], the
    recursive template combines its branches with UNION, but its join
    condition is qualified by [E], a name the text never brings into scope
    (the joined table is aliased [T]), and the WHERE of its base selection
    has no condition. *)
Theorem recursive_query_template_employees :
  exists q,
    Py.format RECURSIVE_QUERY_TEMPLATE
      [("target", "employees"); ("local_column_name", "manager_id");
       ("foreign_column_name", "id")] = Some q
    /\ q = unlines [
         "";
         "WITH RECURSIVE recursive_cte AS (";
         "  SELECT * ";
         "  FROM non_recursive_cte";
         "  UNION";
         "  SELECT T.*";
         "  FROM employees T";
         "  INNER JOIN recursive_cte ON (recursive_cte.manager_id = E.id)";
         "), non_recursive_cte AS (";
         "  SELECT * ";
         "  FROM employees";
         "  WHERE ";
         ")";
         "SELECT * FROM recursive_cte"]
    /\ Pg.in_list "UNION" (SqlText.tokens q) = true
    /\ Pg.in_list "ALL" (SqlText.tokens q) = false
    /\ SqlText.qualifiers q = ["T"; "recursive_cte"; "E"]
    /\ Pg.in_list "T" (SqlText.defined_names q) = true
    /\ Pg.in_list "E" (SqlText.defined_names q) = false
    /\ SqlText.has_empty_where q = true.
Proof. eexists. split; [reflexivity |]. now vm_compute. Qed.

(** * The selections planned for a root *)

Lemma run_rows sys {R} sql ps (rows : Pg.Database -> list R) w r w' :
  run sys sql ps rows w = (inr r, w') ->
  exists version, r = rows (history sys version).
Proof.
  unfold run, bind, cursor.
  destruct (connection sys w) as [[e | c] w1]; [discriminate |].
  unfold execute. destruct (aborted c); [discriminate |].
  intros [= <- _]. now eexists.
Qed.

Lemma dict_set_In {V} k (v : V) d k' v' :
  In (k', v') (Py.dict_set k v d) -> (k' = k /\ v' = v) \/ In (k', v') d.
Proof.
  induction d as [| [k0 v0] d IH]; simpl.
  - intros [[= <- <-] | []]. now left.
  - destruct (String.eqb k0 k) eqn:E.
    + apply String.eqb_eq in E. subst.
      intros [[= <- <-] | H]; [now left | right; now right].
    + intros [H | H]; [right; now left |].
      destruct (IH H) as [? | ?]; [now left | right; now right].
Qed.

Lemma related_queries_dict_values table_name rows acc w d w' :
  related_queries_dict table_name rows acc w = (inr d, w') ->
  forall target q,
    In (target, q) d ->
    In (target, q) acc
    \/ exists item,
         In item rows
         /\ target = Pg.foreign_table_name item
         /\ q = flat_selection table_name item.
Proof.
  revert acc. induction rows as [| item rest IH]; intros acc;
    cbn [related_queries_dict].
  - intros [= <- _] target q H. now left.
  - rewrite related_items_query_flat. intros E target q H.
    destruct (IH _ E target q H) as [Hacc | (i & Hi & Ht & Hq)].
    + apply dict_set_In in Hacc as [[-> ->] | Hacc]; [| now left].
      right. exists item. split; [now left | done].
    + right. exists i. split; [now right | done].
Qed.

(** Every selection [get_related_objects_queries] generates for a root is
    [RELATED_ITEMS_FULL_QUERY] filled in for one of the root's non-recursive
    edges, [SELECT * FROM target WHERE tcol IN (SELECT DISTINCT col FROM
    root WHERE col IS NOT NULL)]: the root's SQL, which the function is not
    given, has no part in it. *)
Lemma related_selection_reads_whole_root (sys : System)
  (table_name : string) (full_tables : list string) (w w' : World)
  (queries : list (string * string)) :
  get_related_objects_queries sys table_name full_tables w = (inr queries, w') ->
  forall target selection,
    In (target, selection) queries ->
    exists version item,
      In item
        (Pg.relations false (Py.truthy_list full_tables) table_name full_tables
           (history sys version))
      /\ target = Pg.foreign_table_name item
      /\ selection = flat_selection table_name item.
Proof.
  unfold get_related_objects_queries, bind.
  destruct (run sys _ _ _ w) as [[e | rows] w1] eqn:E; [discriminate |].
  apply run_rows in E as [version ->].
  intros Hd target selection Hin.
  destruct (related_queries_dict_values _ _ _ _ _ _ Hd target selection Hin)
    as [[] | (item & Hi & Ht & Hq)].
  now exists version, item.
Qed.

Lemma related_selection_reads_whole_root_witness :
  exists version item,
    In item
      (Pg.relations false (Py.truthy_list (@nil string)) "employees" []
         (history Fixture.system version))
    /\ "groups" = Pg.foreign_table_name item
    /\ flat_selection "employees"
         {| Pg.constraint_name := "employees_group_id_fkey";
            Pg.table_name := "employees"; Pg.column_name := "group_id";
            Pg.foreign_table_name := "groups";
            Pg.foreign_column_name := "id" |}
       = flat_selection "employees" item.
Proof.
  exact (related_selection_reads_whole_root Fixture.system "employees" []
           Fixture.world _ _ eq_refl "groups" _ (or_introl eq_refl)).
Defined.

(** C2: for the partial root of [test_complex_query], [employees] with the
    user SQL [SELECT * FROM employees WHERE id = 1 LIMIT 1], the one
    selection [get_related_objects_queries] generates, for the edge to
    [groups], takes its keys from [SELECT DISTINCT group_id FROM employees],
    the whole of the root table: the user SQL is not wrapped in it, and
    nothing of its LIMIT is in the text.  The function is called with the
    name of the root and the full tables only, so the selection is the same
    whatever the user SQL. *)
Theorem related_selection_drops_root_sql :
  exists selection w',
    get_related_objects_queries Fixture.system "employees" [] Fixture.world
    = (inr [("groups", selection)], w')
    /\ selection = unlines [
         "";
         "SELECT ";
         "  * ";
         "FROM groups ";
         "WHERE id IN (";
         "  SELECT ";
         "    DISTINCT group_id ";
         "  FROM employees ";
         "  WHERE group_id IS NOT NULL";
         ")"]
    /\ Spec.wraps selection Fixture.LIMITED_SQL = false
    /\ Py.contains selection "LIMIT" = false.
Proof. eexists _, _. split; [now vm_compute |]. now vm_compute. Qed.

(** * What [dump] puts in the archive *)

(** For each partial root, in the order of the mapping,
    [write_partial_tables] sends the two relations queries for the root
    itself and the COPY of the root's SQL, and nothing else.  It adds to the
    archive exactly one member per root, [dump/data/<root>.csv]. *)
Lemma partial_tables_members (sys : System) (file : string)
  (config : list (string * string)) (full_tables : list string)
  (w w' : World) (z : ZipFile) :
  files w !! file = Some z ->
  closed z = false ->
  write_partial_tables sys file config full_tables w = (inr tt, w') ->
  (exists new,
      files w' !! file = Some {| entries := entries z ++ new; closed := false |}
      /\ map fst new = map (fun item => csv_path item.1) config)
  /\ (exists evs,
        trace w' = trace w ++ evs
        /\ statements evs
           = flat_map (partial_table_statements full_tables) config).
Proof.
  intros Hz Hc E. split.
  - destruct (appends_write_partial_tables sys file config full_tables w z Hz Hc)
      as (new & Hf & Hr).
    rewrite E in Hf, Hr. now exists new.
  - destruct (issues_write_partial_tables sys file config full_tables w)
      as (evs & Ht & Hr).
    rewrite E in Ht, Hr. now exists evs.
Qed.

Lemma partial_tables_members_witness :
  (exists new,
      files
        (write_partial_tables Fixture.system "dump.zip"
           [("employees", Fixture.LIMITED_SQL)] [] opened_world).2
      !! "dump.zip"
      = Some {| entries := entries empty_archive ++ new; closed := false |}
      /\ map fst new
         = map (fun item => csv_path item.1)
             [("employees", Fixture.LIMITED_SQL)])
  /\ (exists evs,
        trace
          (write_partial_tables Fixture.system "dump.zip"
             [("employees", Fixture.LIMITED_SQL)] [] opened_world).2
        = trace opened_world ++ evs
        /\ statements evs
           = flat_map (partial_table_statements [])
               [("employees", Fixture.LIMITED_SQL)]).
Proof.
  apply (partial_tables_members Fixture.system "dump.zip"
           [("employees", Fixture.LIMITED_SQL)] [] opened_world).
  - now vm_compute.
  - reflexivity.
  - now vm_compute.
Defined.

(** C1: on the call of [test_related_table],
    [dump(archive, [], {'employees': 'SELECT * FROM employees WHERE id = 1'})],
    the relation target [groups] is reachable from the partial root
    [employees] and is in no full-table set.  The dump returns; its archive
    holds the schema, the sequences and the member of the root, and no
    [dump/data/groups.csv]; and what was sent on the connection is the two
    catalog queries, the two relations queries for [employees] and the COPY
    of the root's SQL: the selection built for [groups] was never sent. *)
Theorem partial_root_targets_missing :
  exists w',
    dump Fixture.system Fixture.make_options Fixture.dumper "dump.zip"
      (Some []) (Some [("employees", Fixture.EMPLOYEE_SQL)]) Fixture.world
    = (inr tt, w')
    /\ Spec.reachable (Fixture.database 0) [] "employees" "groups"
    /\ namelist <$> files w' !! "dump.zip"
       = Some ["dump/schema.sql"; "dump/sequences.sql";
               "dump/data/employees.csv"]
    /\ Pg.in_list (csv_path "groups")
         ["dump/schema.sql"; "dump/sequences.sql"; "dump/data/employees.csv"]
       = false
    /\ statements (trace w')
       = [(SELECTABLE_TABLES_SQL, []); (SEQUENCES_SQL, []);
          relations_statement NON_RECURSIVE_RELATIONS_QUERY "employees" [];
          relations_statement RECURSIVE_RELATIONS_QUERY "employees" [];
          (copy_statement Fixture.EMPLOYEE_SQL, [])].
Proof.
  eexists. split; [now vm_compute |]. split; [| now vm_compute].
  refine (Spec.reachable_edge _ _
            {| Pg.constraint_name := "employees_group_id_fkey";
               Pg.table_name := "employees"; Pg.column_name := "group_id";
               Pg.foreign_table_name := "groups";
               Pg.foreign_column_name := "id" |} _ _).
  - vm_compute. do 2 right. now left.
  - intros [].
Qed.

(** For each full table, in input order, [write_full_tables] sends the
    non-recursive relations query for the table and the COPY of
    [SELECT * FROM <t>], and nothing else.  It adds to the archive exactly
    one member per full table, [dump/data/<t>.csv]. *)
Lemma full_tables_members (sys : System) (file : string)
  (tables : list string) (w w' : World) (z : ZipFile) :
  files w !! file = Some z ->
  closed z = false ->
  write_full_tables sys file tables w = (inr tt, w') ->
  (exists new,
      files w' !! file = Some {| entries := entries z ++ new; closed := false |}
      /\ map fst new = map csv_path tables)
  /\ (exists evs,
        trace w' = trace w ++ evs
        /\ statements evs = flat_map (full_table_statements tables) tables).
Proof.
  intros Hz Hc E. split.
  - destruct (appends_write_full_tables sys file tables w z Hz Hc)
      as (new & Hf & Hr).
    rewrite E in Hf, Hr. now exists new.
  - destruct (issues_write_full_tables sys file tables w) as (evs & Ht & Hr).
    rewrite E in Ht, Hr. now exists evs.
Qed.

Lemma full_tables_members_witness :
  (exists new,
      files
        (write_full_tables Fixture.system "dump.zip" ["employees"; "groups"]
           opened_world).2
      !! "dump.zip"
      = Some {| entries := entries empty_archive ++ new; closed := false |}
      /\ map fst new = map csv_path ["employees"; "groups"])
  /\ (exists evs,
        trace
          (write_full_tables Fixture.system "dump.zip" ["employees"; "groups"]
             opened_world).2
        = trace opened_world ++ evs
        /\ statements evs
           = flat_map (full_table_statements ["employees"; "groups"])
               ["employees"; "groups"]).
Proof.
  apply (full_tables_members Fixture.system "dump.zip" ["employees"; "groups"]
           opened_world).
  - now vm_compute.
  - reflexivity.
  - now vm_compute.
Defined.

(** C3: on the call of [test_related_to_full],
    [dump(archive, ['employees'], {})], the full table [employees] has the
    relation target [groups].  The dump returns; its archive holds the
    schema, the sequences and [dump/data/employees.csv], and no
    [dump/data/groups.csv]; and what was sent on the connection is the two
    catalog queries, the non-recursive relations query for [employees] and
    the COPY of [SELECT * FROM employees]: the selection built for [groups]
    was never sent. *)
Theorem full_table_targets_missing :
  exists w',
    dump Fixture.system Fixture.make_options Fixture.dumper "dump.zip"
      (Some ["employees"]) (Some []) Fixture.world
    = (inr tt, w')
    /\ Spec.relation_targets (Fixture.database 0) ["employees"] "employees"
       = ["groups"]
    /\ namelist <$> files w' !! "dump.zip"
       = Some ["dump/schema.sql"; "dump/sequences.sql";
               "dump/data/employees.csv"]
    /\ Pg.in_list (csv_path "groups")
         ["dump/schema.sql"; "dump/sequences.sql"; "dump/data/employees.csv"]
       = false
    /\ statements (trace w')
       = [(SELECTABLE_TABLES_SQL, []); (SEQUENCES_SQL, []);
          relations_statement NON_RECURSIVE_RELATIONS_QUERY "employees"
            ["employees"];
          (copy_statement "SELECT * FROM employees", [])].
Proof. eexists. split; now vm_compute. Qed.

(** The archive of a [dump] that returned holds, in this order,
    [dump/schema.sql], [dump/sequences.sql], one [dump/data/<t>.csv] per
    full table in input order and one per partial table in input order. *)
Lemma dump_member_order (sys : System)
  (make_options : string -> list string -> list string) (self : Dumper)
  (filename : string) (full_tables : option (list string))
  (partial_tables : option (list (string * string))) (w w' : World) :
  dump sys make_options self filename full_tables partial_tables w
  = (inr tt, w') ->
  exists z,
    files w' !! filename = Some z
    /\ closed z = true
    /\ namelist z
       = ["dump/schema.sql"; "dump/sequences.sql"]
         ++ map csv_path (Py.or_else Py.truthy_list full_tables [])
         ++ map (fun item => csv_path item.1)
              (Py.or_else Py.truthy_list partial_tables []).
Proof.
  intros E.
  assert (Hw : writable sys filename = true).
  { revert E. unfold dump, with_Dump. now destruct (writable sys filename). }
  destruct (dump_archive sys make_options self filename full_tables
              partial_tables w Hw) as (z & Hf & Hc & Hr).
  rewrite E in Hf, Hr. now exists z.
Qed.

Lemma dump_member_order_witness :
  exists z,
    files
      (dump Fixture.system Fixture.make_options Fixture.dumper "dump.zip"
         (Some ["groups"]) (Some [("employees", Fixture.LIMITED_SQL)])
         Fixture.world).2
    !! "dump.zip" = Some z
    /\ closed z = true
    /\ namelist z
       = ["dump/schema.sql"; "dump/sequences.sql"]
         ++ map csv_path (Py.or_else Py.truthy_list (Some ["groups"]) [])
         ++ map (fun item => csv_path item.1)
              (Py.or_else Py.truthy_list
                 (Some [("employees", Fixture.LIMITED_SQL)]) []).
Proof.
  apply (dump_member_order Fixture.system Fixture.make_options Fixture.dumper
           "dump.zip" (Some ["groups"])
           (Some [("employees", Fixture.LIMITED_SQL)]) Fixture.world).
  now vm_compute.
Defined.

(** C7: on the call of [test_long_relation],
    [dump(archive, [], {'tickets': 'SELECT * FROM tickets WHERE id = 1'})],
    the partial root [tickets] has the relation target [employees].  The
    dump returns, and its archive ends with the member of the root: after
    the schema, the sequences and [dump/data/tickets.csv] no entry for a
    relation target follows. *)
Theorem relation_targets_not_appended :
  exists w',
    dump Fixture.system Fixture.make_options Fixture.dumper "dump.zip"
      (Some []) (Some [("tickets", Fixture.TICKET_SQL)]) Fixture.world
    = (inr tt, w')
    /\ Spec.relation_targets (Fixture.database 0) [] "tickets" = ["employees"]
    /\ namelist <$> files w' !! "dump.zip"
       = Some ["dump/schema.sql"; "dump/sequences.sql"; "dump/data/tickets.csv"]
    /\ namelist <$> files w' !! "dump.zip"
       <> Some (["dump/schema.sql"; "dump/sequences.sql"]
                ++ map (fun item => csv_path item.1)
                     [("tickets", Fixture.TICKET_SQL)]
                ++ map csv_path
                     (Spec.relation_targets (Fixture.database 0) [] "tickets")).
Proof. eexists. split; now vm_compute. Qed.

(** * Further properties of the module *)

(** ** Member names *)

Lemma string_length_app (s1 s2 : string) :
  String.length (s1 +:+ s2) = String.length s1 + String.length s2.
Proof. induction s1 as [| c s1 IH]; simpl; [done |]. now rewrite IH. Qed.

Lemma string_app_inv_tail (s1 s2 suffix : string) :
  s1 +:+ suffix = s2 +:+ suffix -> s1 = s2.
Proof.
  revert s2. induction s1 as [| c s1 IH]; intros [| d s2] E.
  - done.
  - apply (f_equal String.length) in E.
    change (String.length suffix
            = S (String.length (s2 +:+ suffix))) in E.
    rewrite string_length_app in E. lia.
  - apply (f_equal String.length) in E.
    change (S (String.length (s1 +:+ suffix))
            = String.length suffix) in E.
    rewrite string_length_app in E. lia.
  - change (String c (s1 +:+ suffix) = String d (s2 +:+ suffix)) in E.
    injection E as -> E. f_equal. now apply IH.
Qed.

Lemma csv_path_inj : Inj (=) (=) csv_path.
Proof.
  intros t1 t2 E. unfold csv_path in E.
  apply String.app_inj in E. now apply string_app_inv_tail in E.
Qed.

Lemma csv_path_not_fixed (tables : list string) :
  ("dump/schema.sql" ∉ map csv_path tables)
  /\ ("dump/sequences.sql" ∉ map csv_path tables).
Proof.
  split; intros (t & E & _)%list_elem_of_In%in_map_iff; discriminate E.
Qed.

Lemma dump_names_tables full_tables partial_tables :
  dump_names full_tables partial_tables
  = ["dump/schema.sql"; "dump/sequences.sql"]
    ++ map csv_path (dumped_tables full_tables partial_tables).
Proof.
  unfold dump_names, dumped_tables. now rewrite map_app, map_map.
Qed.

Lemma dump_names_NoDup full_tables partial_tables :
  NoDup (dump_names full_tables partial_tables)
  <-> NoDup (dumped_tables full_tables partial_tables).
Proof.
  rewrite dump_names_tables. simpl.
  destruct (csv_path_not_fixed (dumped_tables full_tables partial_tables))
    as [H1 H2].
  assert (Hinj : NoDup (map csv_path
                          (dumped_tables full_tables partial_tables))
                 <-> NoDup (dumped_tables full_tables partial_tables)).
  { exact (@NoDup_fmap _ _ csv_path csv_path_inj _). }
  rewrite !NoDup_cons, Hinj.
  split; [now intros (_ & _ & H) |]. intros H.
  split; [| split; [exact H2 | exact H]].
  intros [E | Hin]%elem_of_cons; [discriminate E | now apply H1].
Qed.

(** X1: the archive of a [dump] that returned has two members of the same
    path exactly when a table is named twice, within [full_tables] or once
    there and once as a key of [partial_tables]; nothing keeps such a table
    from being written twice. *)
Theorem dump_members_distinct (sys : System)
  (make_options : string -> list string -> list string) (self : Dumper)
  (filename : string) (full_tables : option (list string))
  (partial_tables : option (list (string * string))) (w w' : World) :
  dump sys make_options self filename full_tables partial_tables w
  = (inr tt, w') ->
  exists z,
    files w' !! filename = Some z
    /\ (NoDup (namelist z)
        <-> NoDup (dumped_tables full_tables partial_tables)).
Proof.
  intros E.
  assert (Hw : writable sys filename = true).
  { revert E. unfold dump, with_Dump. now destruct (writable sys filename). }
  destruct (dump_archive sys make_options self filename full_tables
              partial_tables w Hw) as (z & Hf & _ & Hr).
  rewrite E in Hf, Hr. exists z. split; [exact Hf |].
  simpl in Hr. rewrite Hr. apply dump_names_NoDup.
Qed.

Lemma dump_members_distinct_witness :
  exists z,
    files
      (dump Fixture.system Fixture.make_options Fixture.dumper "dump.zip"
         (Some ["employees"]) (Some [("employees", Fixture.LIMITED_SQL)])
         Fixture.world).2
    !! "dump.zip" = Some z
    /\ (NoDup (namelist z)
        <-> NoDup
              (dumped_tables (Some ["employees"])
                 (Some [("employees", Fixture.LIMITED_SQL)]))).
Proof.
  apply (dump_members_distinct Fixture.system Fixture.make_options
           Fixture.dumper "dump.zip" (Some ["employees"])
           (Some [("employees", Fixture.LIMITED_SQL)]) Fixture.world).
  now vm_compute.
Defined.

(** ** Other files *)

Lemma leaves_keeps_files {A} f (m : M A) : keeps_files m -> leaves f m.
Proof. intros Hm w. now rewrite Hm. Qed.

Lemma leaves_bind {A B} f (m : M A) (k : A -> M B) :
  leaves f m -> (forall a, leaves f (k a)) -> leaves f (bind m k).
Proof.
  intros Hm Hk w. specialize (Hm w). unfold bind.
  destruct (m w) as [[e | a] w1]; simpl in *; [done |].
  now rewrite Hk.
Qed.

Lemma leaves_for_each {A} f (body : A -> M unit) xs :
  (forall x, leaves f (body x)) -> leaves f (for_each xs body).
Proof.
  intros Hbody. induction xs as [| x xs IH]; simpl.
  - now intros w.
  - apply leaves_bind; [apply Hbody | now intros].
Qed.

Lemma leaves_writestr f file arcname data :
  f <> file -> leaves f (writestr file arcname data).
Proof.
  intros Hne w. unfold writestr.
  destruct (files w !! file) as [z |]; [| done].
  destruct (closed z); [done |]. simpl. now rewrite lookup_insert_ne.
Qed.

Section Leaves.

Variable sys : System.
Variable make_options : string -> list string -> list string.
Variable self : Dumper.
Variables f file : string.
Hypothesis other : f <> file.

Lemma leaves_write_csv table_name sql :
  leaves f (write_csv sys file table_name sql).
Proof.
  apply leaves_bind; [apply leaves_keeps_files, keeps_files_export_to_csv |].
  intros ?. now apply leaves_writestr.
Qed.

Lemma leaves_body full_tables partial_tables :
  leaves f
    (write_schema sys make_options self file ;;;
     write_sequences sys make_options self file ;;;
     write_full_tables sys file full_tables ;;;
     write_partial_tables sys file partial_tables full_tables).
Proof.
  apply leaves_bind.
  { apply leaves_bind; [apply leaves_keeps_files, keeps_files_dump_schema |].
    intros ?. now apply leaves_writestr. }
  intros _. apply leaves_bind.
  { apply leaves_bind; [apply leaves_keeps_files, keeps_files_dump_sequences |].
    intros ?. now apply leaves_writestr. }
  intros _. apply leaves_bind.
  { apply leaves_for_each. intros t. apply leaves_bind.
    - apply leaves_keeps_files, keeps_files_get_related_objects_queries.
    - intros _. apply leaves_write_csv. }
  intros _. apply leaves_for_each. intros [t sql]. apply leaves_bind.
  { apply leaves_keeps_files, keeps_files_get_related_objects_queries. }
  intros _. apply leaves_bind; [apply leaves_keeps_files, keeps_files_run |].
  intros rows. apply leaves_bind;
    [apply leaves_keeps_files, keeps_files_print |].
  intros _. apply leaves_write_csv.
Qed.

End Leaves.

(** X2: [dump] touches no file but its own: every other archive is as it
    was, whether [dump] returned or raised. *)
Theorem dump_leaves_other_files (sys : System)
  (make_options : string -> list string -> list string) (self : Dumper)
  (filename : string) (full_tables : option (list string))
  (partial_tables : option (list (string * string))) (w : World)
  (other : string) :
  other <> filename ->
  files (dump sys make_options self filename full_tables partial_tables w).2
    !! other
  = files w !! other.
Proof.
  intros Hne. unfold dump, with_Dump.
  destruct (writable sys filename); [| done].
  set (opened := Build_World _ _ _ _ _).
  pose proof (leaves_body sys make_options self other filename Hne
                (Py.or_else Py.truthy_list full_tables [])
                (Py.or_else Py.truthy_list partial_tables []) opened) as H.
  match type of H with context [(?b).2] => destruct b as [r w1] end.
  simpl in *. unfold close_archive. simpl.
  destruct (files w1 !! filename); simpl.
  - rewrite lookup_insert_ne by done. rewrite H. unfold opened. simpl.
    now rewrite lookup_insert_ne.
  - rewrite H. unfold opened. simpl. now rewrite lookup_insert_ne.
Qed.

Lemma dump_leaves_other_files_witness :
  files
    (dump Fixture.system Fixture.make_options Fixture.dumper "other.zip"
       (Some ["groups"]) None opened_world).2
    !! "dump.zip"
  = files opened_world !! "dump.zip".
Proof.
  apply (dump_leaves_other_files Fixture.system Fixture.make_options
           Fixture.dumper "other.zip" (Some ["groups"]) None opened_world
           "dump.zip").
  discriminate.
Defined.

(** ** The selections kept for a root *)

Lemma dict_set_keys {V} k (v : V) d :
  map fst (Py.dict_set k v d)
  = if Pg.in_list k (map fst d) then map fst d else map fst d ++ [k].
Proof.
  induction d as [| [k0 v0] d IH]; simpl; [done |].
  rewrite (String.eqb_sym k k0).
  destruct (String.eqb k0 k); simpl; [done |].
  rewrite IH. fold (Pg.in_list k (map fst d)).
  now destruct (Pg.in_list k (map fst d)).
Qed.

Lemma dict_set_NoDup {V} k (v : V) d :
  NoDup (map fst d) -> NoDup (map fst (Py.dict_set k v d)).
Proof.
  intros Hd. rewrite dict_set_keys.
  destruct (Pg.in_list k (map fst d)) eqn:E; [done |].
  apply in_list_false in E. apply NoDup_app. split; [done |].
  split; [| apply NoDup_singleton].
  intros x Hx ->%list_elem_of_singleton. now apply E, list_elem_of_In.
Qed.

Lemma dict_set_key_In {V} k (v : V) d k' :
  In k' (map fst (Py.dict_set k v d)) <-> k' = k \/ In k' (map fst d).
Proof.
  rewrite dict_set_keys.
  destruct (Pg.in_list k (map fst d)) eqn:E.
  - apply in_list_true in E. split; [now right |].
    now intros [-> | H].
  - rewrite in_app_iff. simpl. split.
    + intros [H | [<- | []]]; [now right | now left].
    + intros [-> | H]; [right; now left | now left].
Qed.

Lemma dict_set_In_same {V} k (v : V) d : In (k, v) (Py.dict_set k v d).
Proof.
  induction d as [| [k0 v0] d IH]; simpl; [now left |].
  destruct (String.eqb k0 k) eqn:E.
  - apply String.eqb_eq in E. subst. now left.
  - now right.
Qed.

Lemma dict_set_In_other {V} k (v : V) d k' v' :
  k' <> k -> In (k', v') d -> In (k', v') (Py.dict_set k v d).
Proof.
  intros Hne. induction d as [| [k0 v0] d IH]; simpl; [done |].
  destruct (String.eqb k0 k) eqn:E.
  - apply String.eqb_eq in E. subst.
    intros [[= -> ->] | H]; [done | now right].
  - intros [H | H]; [now left | right; now apply IH].
Qed.

Lemma related_queries_dict_fold table_name rows acc w :
  related_queries_dict table_name rows acc w
  = (inr (related_queries table_name rows acc), w).
Proof.
  revert acc. induction rows as [| item rest IH]; intros acc;
    cbn [related_queries_dict]; [done |].
  rewrite related_items_query_flat. apply IH.
Qed.

Lemma related_queries_cons table_name item rest acc :
  related_queries table_name (item :: rest) acc
  = related_queries table_name rest
      (Py.dict_set (Pg.foreign_table_name item)
         (flat_selection table_name item) acc).
Proof. reflexivity. Qed.

Lemma related_queries_NoDup table_name rows acc :
  NoDup (map fst acc) -> NoDup (map fst (related_queries table_name rows acc)).
Proof.
  revert acc. induction rows as [| item rest IH]; intros acc Hacc; [done |].
  rewrite related_queries_cons. apply IH. now apply dict_set_NoDup.
Qed.

Lemma related_queries_keys table_name rows acc target :
  In target (map fst (related_queries table_name rows acc))
  <-> In target (map fst acc) \/ In target (map Pg.foreign_table_name rows).
Proof.
  revert acc. induction rows as [| item rest IH]; intros acc.
  - simpl. split; [now left | now intros [H | []]].
  - rewrite related_queries_cons, IH, dict_set_key_In.
    change (map Pg.foreign_table_name (item :: rest))
      with (Pg.foreign_table_name item :: map Pg.foreign_table_name rest).
    simpl In. split.
    + intros [[-> | H] | H]; [right; now left | now left | right; now right].
    + intros [H | [<- | H]]; [left; now right | left; now left | now right].
Qed.

Lemma related_queries_last table_name pre item post acc :
  (forall x, In x post -> Pg.foreign_table_name x <> Pg.foreign_table_name item) ->
  In (Pg.foreign_table_name item, flat_selection table_name item)
    (related_queries table_name (pre ++ item :: post) acc).
Proof.
  intros Hpost. unfold related_queries. rewrite fold_left_app. simpl.
  generalize (fold_left
                (fun d i =>
                   Py.dict_set (Pg.foreign_table_name i)
                     (flat_selection table_name i) d) pre acc).
  intros d.
  assert (H : In (Pg.foreign_table_name item, flat_selection table_name item)
                (Py.dict_set (Pg.foreign_table_name item)
                   (flat_selection table_name item) d))
    by apply dict_set_In_same.
  revert H. generalize (Py.dict_set (Pg.foreign_table_name item)
                          (flat_selection table_name item) d).
  induction post as [| x post IH]; intros d' H; simpl; [done |].
  apply IH.
  - intros y Hy. apply Hpost. now right.
  - apply dict_set_In_other; [| done].
    intros E. apply (Hpost x); [now left | done].
Qed.

Lemma NoDup_fst_unique {V} (d : list (string * V)) k v1 v2 :
  NoDup (map fst d) -> In (k, v1) d -> In (k, v2) d -> v1 = v2.
Proof.
  induction d as [| [k0 v0] d IH]; simpl; [done |].
  intros [Hk Hd]%NoDup_cons [E1 | H1] [E2 | H2].
  - congruence.
  - exfalso. apply Hk, list_elem_of_In, in_map_iff. exists (k, v2).
    split; [simpl; congruence | done].
  - exfalso. apply Hk, list_elem_of_In, in_map_iff. exists (k, v1).
    split; [simpl; congruence | done].
  - now apply IH.
Qed.

Lemma relations_item recursive not_in table full_tables db e :
  In e (Pg.relations recursive not_in table full_tables db) ->
  Pg.table_name e = table
  /\ (if recursive
      then Pg.table_name e = Pg.foreign_table_name e
      else Pg.table_name e <> Pg.foreign_table_name e)
  /\ (not_in = true -> ~ In (Pg.foreign_table_name e) full_tables).
Proof.
  unfold Pg.relations. intros (j & <- & [_ Hw]%filter_In)%in_map_iff.
  destruct j as [[tc kcu] ccu]. unfold Pg.where_relations in Hw. simpl in *.
  apply andb_prop in Hw as [Hw Hex]. apply andb_prop in Hw as [Hw Ht].
  apply andb_prop in Hw as [_ Hmode].
  split; [now apply String.eqb_eq |]. split.
  - destruct recursive.
    + now apply String.eqb_eq.
    + apply negb_true_iff in Hmode. now apply String.eqb_neq.
  - intros ->. apply negb_true_iff in Hex. now apply in_list_false.
Qed.

Lemma get_related_objects_queries_fold sys table_name full_tables w d w' :
  get_related_objects_queries sys table_name full_tables w = (inr d, w') ->
  exists version,
    d = related_queries table_name
          (Pg.relations false (Py.truthy_list full_tables) table_name
             full_tables (history sys version)) [].
Proof.
  unfold get_related_objects_queries, bind.
  destruct (run sys _ _ _ w) as [[e | rows] w1] eqn:E; [discriminate |].
  apply run_rows in E as [version ->].
  rewrite related_queries_dict_fold. intros [= <- _]. now exists version.
Qed.

(** X3: the mapping [get_related_objects_queries] returns has one key per
    table the root references: its keys are pairwise distinct, they are
    exactly the targets of the root's non-recursive foreign keys that are
    not full tables, and neither the root itself nor a full table is among
    them. *)
Theorem related_queries_keys_pruned (sys : System) (table_name : string)
  (full_tables : list string) (w w' : World)
  (queries : list (string * string)) :
  get_related_objects_queries sys table_name full_tables w = (inr queries, w') ->
  exists version,
    NoDup (map fst queries)
    /\ (forall target,
           In target (map fst queries)
           <-> In target
                 (map Pg.foreign_table_name
                    (Pg.relations false (Py.truthy_list full_tables)
                       table_name full_tables (history sys version))))
    /\ (forall target,
           In target (map fst queries) ->
           target <> table_name /\ ~ In target full_tables).
Proof.
  intros [version ->]%get_related_objects_queries_fold. exists version.
  split; [apply related_queries_NoDup; constructor |].
  assert (Hkeys : forall target,
    In target
      (map fst
         (related_queries table_name
            (Pg.relations false (Py.truthy_list full_tables) table_name
               full_tables (history sys version)) []))
    <-> In target
          (map Pg.foreign_table_name
             (Pg.relations false (Py.truthy_list full_tables) table_name
                full_tables (history sys version)))).
  { intros target. rewrite related_queries_keys. simpl. tauto. }
  split; [exact Hkeys |].
  intros target (e & <- & He)%Hkeys%in_map_iff.
  apply relations_item in He as (Ht & Hne & Hex). split.
  - intros E. apply Hne. now rewrite Ht, E.
  - destruct (Py.truthy_list full_tables) eqn:Hft; [now apply Hex |].
    apply truthy_list_false in Hft. subst. intros [].
Qed.

Lemma related_queries_keys_pruned_witness :
  exists version,
    NoDup
      (map fst
         (related_queries "employees"
            (Pg.relations false true "employees" ["tickets"]
               (Fixture.database 0)) []))
    /\ (forall target,
           In target
             (map fst
                (related_queries "employees"
                   (Pg.relations false true "employees" ["tickets"]
                      (Fixture.database 0)) []))
           <-> In target
                 (map Pg.foreign_table_name
                    (Pg.relations false (Py.truthy_list ["tickets"])
                       "employees" ["tickets"]
                       (history Fixture.system version))))
    /\ (forall target,
           In target
             (map fst
                (related_queries "employees"
                   (Pg.relations false true "employees" ["tickets"]
                      (Fixture.database 0)) [])) ->
           target <> "employees" /\ ~ In target ["tickets"]).
Proof.
  apply (related_queries_keys_pruned Fixture.system "employees" ["tickets"]
           Fixture.world
           (get_related_objects_queries Fixture.system "employees"
              ["tickets"] Fixture.world).2).
  now vm_compute.
Defined.

(** X4: when the root has several foreign keys to the same table, the
    mapping keeps one selection for that table, the one of the last such
    foreign key in the catalog's answer. *)
Theorem related_queries_last_edge_wins (sys : System) (table_name : string)
  (full_tables : list string) (w w' : World)
  (queries : list (string * string)) :
  get_related_objects_queries sys table_name full_tables w = (inr queries, w') ->
  exists version,
    forall pre item post,
      Pg.relations false (Py.truthy_list full_tables) table_name full_tables
        (history sys version) = pre ++ item :: post ->
      (forall x, In x post ->
                 Pg.foreign_table_name x <> Pg.foreign_table_name item) ->
      forall selection,
        In (Pg.foreign_table_name item, selection) queries
        <-> selection = flat_selection table_name item.
Proof.
  intros [version ->]%get_related_objects_queries_fold. exists version.
  intros pre item post Hrows Hpost selection. rewrite Hrows.
  pose proof (related_queries_last table_name pre item post [] Hpost) as Hin.
  split; [| now intros ->].
  intros H. eapply NoDup_fst_unique; [| exact H | exact Hin].
  apply related_queries_NoDup. constructor.
Qed.

Lemma related_queries_last_edge_wins_witness :
  exists version,
    forall pre item post,
      Pg.relations false (Py.truthy_list (@nil string)) "tickets" []
        (history assigned_system version) = pre ++ item :: post ->
      (forall x, In x post ->
                 Pg.foreign_table_name x <> Pg.foreign_table_name item) ->
      forall selection,
        In (Pg.foreign_table_name item, selection)
          (related_queries "tickets"
             (Pg.relations false false "tickets" [] (assigned_database 0)) [])
        <-> selection = flat_selection "tickets" item.
Proof.
  apply (related_queries_last_edge_wins assigned_system "tickets" []
           Fixture.world
           (get_related_objects_queries assigned_system "tickets" []
              Fixture.world).2).
  now vm_compute.
Defined.

(** ** Exceptions *)

Lemma throws_weaken {A} (m : M A) (E E' : exn -> Prop) :
  throws m E -> (forall e, E e -> E' e) -> throws m E'.
Proof.
  intros Hm HE w Hw. specialize (Hm w Hw).
  destruct (m w) as [[e | a] w1]; [now apply HE | exact Hm].
Qed.

Lemma throws_bind {A B} (m : M A) (k : A -> M B) E :
  throws m E -> (forall a, throws (k a) E) -> throws (bind m k) E.
Proof.
  intros Hm Hk w Hw. specialize (Hm w Hw). unfold bind.
  destruct (m w) as [[e1 | a] w1]; [exact Hm |]. now apply Hk.
Qed.

Lemma raises_only_throws {A} file (m : M A) E : throws m E -> raises_only file m E.
Proof. intros Hm w z Hw _ _. exact (Hm w Hw). Qed.

Lemma raises_only_weaken {A} file (m : M A) (E E' : exn -> Prop) :
  raises_only file m E -> (forall e, E e -> E' e) -> raises_only file m E'.
Proof.
  intros Hm HE w z Hw Hz Hc. specialize (Hm w z Hw Hz Hc).
  destruct (m w) as [[e | a] w1]; [now apply HE | exact Hm].
Qed.

Lemma raises_only_bind {A B} file (m : M A) (k : A -> M B) names E :
  appends file m names ->
  raises_only file m E -> (forall a, raises_only file (k a) E) ->
  raises_only file (bind m k) E.
Proof.
  intros Ha Hm Hk w z Hw Hz Hc. unfold bind.
  destruct (Ha w z Hz Hc) as (new & Hf & _).
  specialize (Hm w z Hw Hz Hc).
  destruct (m w) as [[e1 | a] w1]; simpl in Hf; [exact Hm |].
  exact (Hk a w1 _ Hm Hf eq_refl).
Qed.

Lemma raises_only_for_each {A} file (body : A -> M unit)
  (name : A -> string) (E : exn -> Prop) xs :
  (forall x, appends file (body x) [name x]) ->
  (forall x, In x xs -> raises_only file (body x) E) ->
  raises_only file (for_each xs body) E.
Proof.
  intros Ha. induction xs as [| x xs IH]; intros Hbody; simpl.
  - now intros w z Hw _ _.
  - eapply raises_only_bind; [apply Ha | apply Hbody; now left |].
    intros _. apply IH. intros y Hy. apply Hbody. now right.
Qed.

Lemma raises_only_writestr file arcname data :
  raises_only file (writestr file arcname data) (fun _ => False).
Proof.
  intros w z Hw Hz Hc. unfold writestr. now rewrite Hz, Hc.
Qed.

Section Throws.

Variable sys : System.
Variable make_options : string -> list string -> list string.
Variable self : Dumper.

Lemma throws_connection :
  throws (connection sys)
    (fun e => e = OperationalError /\ accepts_connections sys = false).
Proof.
  intros w Hw. unfold connection.
  destruct (cached_connection w); [exact Hw |].
  destruct (accepts_connections sys); [| done]. now intros c [= <-].
Qed.

(** A statement on the cursor raises when the server refuses the connection
    or rejects the statement. *)
Lemma throws_execute_cached {R} sql ps (answer : Pg.Database -> option R) :
  throws (c <- cursor sys ;; execute sys c sql ps answer)
    (fun e =>
       (e = OperationalError /\ accepts_connections sys = false)
       \/ (e = DatabaseError sql
           /\ exists version, answer (history sys version) = None)).
Proof.
  intros w Hw. unfold cursor, bind.
  pose proof (throws_connection w Hw) as Hc.
  destruct (connection sys w) as [[e | c] w1] eqn:E; [now left |].
  apply connection_cached in E. unfold execute. rewrite (Hc c E).
  match goal with |- context [answer ?db] => destruct (answer db) eqn:Ea end.
  - now intros c' [= <-].
  - right. split; [done |]. eexists. exact Ea.
Qed.

Lemma throws_run {R} sql ps (rows : Pg.Database -> list R) :
  throws (run sys sql ps rows)
    (fun e => e = OperationalError /\ accepts_connections sys = false).
Proof.
  eapply throws_weaken; [apply throws_execute_cached |].
  intros e [H | [_ [version H]]]; [exact H | discriminate H].
Qed.

Lemma throws_export_to_csv sql :
  throws (export_to_csv sys sql) (session_error sys self [sql]).
Proof.
  eapply throws_weaken; [apply throws_execute_cached |].
  intros e [H | [-> [version H]]]; [now left |].
  do 3 right. exists sql, version. split; [now left | done].
Qed.

Lemma throws_pg_dump args :
  throws (pg_dump sys self args) (session_error sys self []).
Proof.
  intros w Hw. unfold pg_dump. cbn [forallb app Py.is_str].
  destruct (Py.is_str (port self)) eqn:Hport.
  - replace (forallb Py.is_str (map Py.Str args)) with true
      by (induction args as [| a args' IH]; [done | exact IH]).
    cbn [andb].
    destruct (pg_dump_program _ _ _ _) eqn:E; [exact Hw |].
    right. left. split; [done |]. eexists _, _, _. exact E.
  - cbn [andb]. right. right. left. split; [now eexists | done].
Qed.

Lemma throws_get_related_objects_queries table_name full_tables :
  throws (get_related_objects_queries sys table_name full_tables)
    (session_error sys self []).
Proof.
  apply throws_bind.
  { eapply throws_weaken; [apply throws_run |]. intros e H. now left. }
  intros rows w Hw. now rewrite related_queries_dict_fold.
Qed.

Lemma session_error_incl sqls sqls' e :
  (forall sql, In sql sqls -> In sql sqls') ->
  session_error sys self sqls e -> session_error sys self sqls' e.
Proof.
  intros Hincl [H | [H | [H | (sql & version & Hin & H)]]];
    [now left | right; now left | right; right; now left |].
  do 3 right. exists sql, version. split; [now apply Hincl | exact H].
Qed.

Lemma raises_only_write_csv file table_name sql :
  raises_only file (write_csv sys file table_name sql)
    (session_error sys self [sql]).
Proof.
  eapply raises_only_bind.
  - apply appends_keeps_files, keeps_files_export_to_csv.
  - apply raises_only_throws, throws_export_to_csv.
  - intros data. eapply raises_only_weaken; [apply raises_only_writestr |].
    intros e [].
Qed.

Lemma raises_only_write_schema file sqls :
  raises_only file (write_schema sys make_options self file)
    (session_error sys self sqls).
Proof.
  eapply raises_only_bind.
  - apply appends_keeps_files, keeps_files_dump_schema.
  - apply raises_only_throws, throws_bind.
    + eapply throws_weaken; [apply throws_run |]. intros e H. now left.
    + intros tables. eapply throws_weaken; [apply throws_pg_dump |].
      intros e. apply session_error_incl. now intros ? [].
  - intros data. eapply raises_only_weaken; [apply raises_only_writestr |].
    intros e [].
Qed.

Lemma raises_only_write_sequences file sqls :
  raises_only file (write_sequences sys make_options self file)
    (session_error sys self sqls).
Proof.
  eapply raises_only_bind.
  - apply appends_keeps_files, keeps_files_dump_sequences.
  - apply raises_only_throws, throws_bind.
    + eapply throws_weaken; [apply throws_run |]. intros e H. now left.
    + intros tables. eapply throws_weaken; [apply throws_pg_dump |].
      intros e. apply session_error_incl. now intros ? [].
  - intros data. eapply raises_only_weaken; [apply raises_only_writestr |].
    intros e [].
Qed.

Lemma raises_only_write_full_tables file tables sqls :
  (forall t, In t tables -> In ("SELECT * FROM " +:+ t) sqls) ->
  raises_only file (write_full_tables sys file tables)
    (session_error sys self sqls).
Proof.
  intros Hsql. unfold write_full_tables. revert Hsql.
  generalize tables at 1 2. intros ts Hsql.
  apply (raises_only_for_each file _ csv_path).
  { intros t. apply (appends_bind file _ _ [] [_]).
    - apply appends_keeps_files, keeps_files_get_related_objects_queries.
    - intros _. apply appends_write_csv. }
  intros t Ht. eapply raises_only_bind.
  - apply appends_keeps_files, keeps_files_get_related_objects_queries.
  - apply raises_only_throws.
    eapply throws_weaken; [apply throws_get_related_objects_queries |].
    intros e. apply session_error_incl. now intros ? [].
  - intros _. eapply raises_only_weaken; [apply raises_only_write_csv |].
    intros e. apply session_error_incl. intros sql [<- | []]. now apply Hsql.
Qed.

Lemma raises_only_write_partial_tables file config full_tables sqls :
  (forall item, In item config -> In item.2 sqls) ->
  raises_only file (write_partial_tables sys file config full_tables)
    (session_error sys self sqls).
Proof.
  intros Hsql.
  apply (raises_only_for_each file _ (fun item => csv_path item.1)).
  { intros [t sql]. simpl. apply (appends_bind file _ _ [] [_]).
    { apply appends_keeps_files, keeps_files_get_related_objects_queries. }
    intros _. apply (appends_bind file _ _ [] [_]).
    { apply appends_keeps_files, keeps_files_run. }
    intros rows. apply (appends_bind file _ _ [] [_]).
    { apply appends_keeps_files, keeps_files_print. }
    intros _. apply appends_write_csv. }
  intros [t sql] Ht. eapply raises_only_bind.
  { apply appends_keeps_files, keeps_files_get_related_objects_queries. }
  { apply raises_only_throws.
    eapply throws_weaken; [apply throws_get_related_objects_queries |].
    intros e. apply session_error_incl. now intros ? []. }
  intros _. eapply raises_only_bind.
  { apply appends_keeps_files, keeps_files_run. }
  { apply raises_only_throws.
    eapply throws_weaken; [apply throws_run |]. intros e H. now left. }
  intros rows. eapply raises_only_bind.
  { apply appends_keeps_files, keeps_files_print. }
  { now intros w z Hw _ _. }
  intros _. eapply raises_only_weaken; [apply raises_only_write_csv |].
  intros e. apply session_error_incl. intros s [<- | []].
  exact (Hsql (t, sql) Ht).
Qed.

(** In an aborted transaction the first statement of the body, the catalog
    query of [write_schema], is refused. *)
Lemma write_schema_aborted file c w :
  cached_connection w = Some c -> aborted c = true ->
  (write_schema sys make_options self file w).1 = inl InFailedSqlTransaction.
Proof.
  intros Hc Ha.
  unfold write_schema, dump_schema, get_selectable_tables, run, cursor, bind,
    connection.
  rewrite Hc. unfold execute. now rewrite Ha.
Qed.

End Throws.

(** X5: the exceptions that leave [dump], each with its cause: OSError for
    the archive when it cannot be opened; InFailedSqlTransaction when the
    transaction of the cached connection was aborted already when [dump]
    was called; OperationalError when the server refuses the connection;
    OSError for [pg_dump] when it cannot be started; TypeError when the
    port handed to [Popen] is no string; and DatabaseError for the COPY of
    one of the requested selections when the server rejects it.  The code
    adds none of its own: formatting the template always finds its four
    fields, and the archive is open whenever a member is written.  (The
    catalog queries are fixed text: the server is taken to answer them
    outside an aborted transaction.) *)
Theorem dump_raises_only (sys : System)
  (make_options : string -> list string -> list string) (self : Dumper)
  (filename : string) (full_tables : option (list string))
  (partial_tables : option (list (string * string))) (w w' : World) (e : exn) :
  dump sys make_options self filename full_tables partial_tables w
  = (inl e, w') ->
  dump_error sys self filename full_tables partial_tables w e.
Proof.
  unfold dump, with_Dump, dump_error.
  destruct (writable sys filename) eqn:Hw; [| intros [= <- _]; now left].
  set (opened := Build_World _ _ _ _ _).
  set (ft := Py.or_else Py.truthy_list full_tables []).
  set (pt := Py.or_else Py.truthy_list partial_tables []).
  set (sqls := map snd (selections full_tables partial_tables)).
  set (body := bind _ _).
  destruct (cached_connection w) as [c |] eqn:Hc;
    [destruct (aborted c) eqn:Ha |].
  { pose proof (write_schema_aborted sys make_options self filename c opened
                  eq_refl Ha) as H.
    unfold body, bind.
    destruct (write_schema sys make_options self filename opened)
      as [[e1 | []] w1]; simpl in H; [| discriminate H].
    injection H as ->. intros [= <- _]. right. left.
    split; [done |]. now exists c. }
  all: assert (Hh : healthy opened) by
    (intros c' Hc'; unfold opened in Hc'; simpl in Hc'; congruence).
  all: assert (Hb : raises_only filename body (session_error sys self sqls)).
  1,3: eapply raises_only_bind;
      [apply appends_write_schema | apply raises_only_write_schema |];
    intros _; eapply raises_only_bind;
      [apply appends_write_sequences | apply raises_only_write_sequences |];
    intros _; eapply raises_only_bind; [apply appends_write_full_tables | |];
    [ apply raises_only_write_full_tables; intros t Ht;
      unfold sqls, selections; fold ft pt; rewrite map_app, map_map; simpl;
      apply in_or_app; left; now apply in_map
    | intros _; apply raises_only_write_partial_tables; intros item Hi;
      unfold sqls, selections; fold ft pt; rewrite map_app;
      apply in_or_app; right; now apply in_map ].
  all: specialize (Hb opened {| entries := []; closed := false |} Hh
                     (lookup_insert_eq _ _ _) eq_refl);
    destruct (body opened) as [r w1] eqn:Eb; intros [= -> _];
    right; right; exact Hb.
Qed.

Lemma dump_raises_only_witness :
  dump_error Fixture.system Fixture.dumper "dump.zip" None
    (Some [("employees", "SELEC")]) Fixture.world
    (DatabaseError "COPY (SELEC) TO STDOUT WITH CSV HEADER").
Proof.
  apply (dump_raises_only Fixture.system Fixture.make_options Fixture.dumper
           "dump.zip" None (Some [("employees", "SELEC")]) Fixture.world
           (dump Fixture.system Fixture.make_options Fixture.dumper "dump.zip"
              None (Some [("employees", "SELEC")]) Fixture.world).2).
  now vm_compute.
Defined.

(** ** The snapshot the archive is read at *)

Lemma at_snapshot_all w (P : nat -> Prop) : (forall v, P v) -> at_snapshot w P.
Proof. intros H. unfold at_snapshot. now destruct (open_snapshot w). Qed.

Lemma at_snapshot_mono w (P Q : nat -> Prop) :
  (forall v, P v -> Q v) -> at_snapshot w P -> at_snapshot w Q.
Proof.
  intros H. unfold at_snapshot. destruct (open_snapshot w); [apply H |].
  intros HP v. apply H, HP.
Qed.

Lemma at_snapshot_and w (P Q : nat -> Prop) :
  at_snapshot w P -> at_snapshot w Q -> at_snapshot w (fun v => P v /\ Q v).
Proof.
  unfold at_snapshot. destruct (open_snapshot w); [done |].
  intros HP HQ v. split; [apply HP | apply HQ].
Qed.

Lemma open_snapshot_extends w w' v :
  extends w w' -> open_snapshot w = Some v -> open_snapshot w' = Some v.
Proof.
  intros [_ F _]. unfold open_snapshot.
  destruct (cached_connection w) as [c |] eqn:E; [| discriminate].
  intros Hs. destruct (F c eq_refl) as (c' & -> & _ & _ & ->);
    [now rewrite Hs | exact Hs].
Qed.

Lemma at_snapshot_extends w w' (P : nat -> Prop) :
  extends w w' -> at_snapshot w P -> at_snapshot w' P.
Proof.
  intros Hext. unfold at_snapshot at 1.
  destruct (open_snapshot w) as [v |] eqn:E.
  - intros HP. unfold at_snapshot.
    now rewrite (open_snapshot_extends w w' v Hext E).
  - apply at_snapshot_all.
Qed.

Lemma at_snapshot_same w w' (P : nat -> Prop) :
  cached_connection w' = cached_connection w ->
  at_snapshot w P -> at_snapshot w' P.
Proof. intros E. unfold at_snapshot, open_snapshot. now rewrite E. Qed.

Lemma stores_weaken {A} file (m : M A) (R R' : nat -> _ -> Prop) :
  stores file m R -> (forall v new, R v new -> R' v new) -> stores file m R'.
Proof.
  intros Hm HR w z a w' Hok Hz Hc E.
  destruct (Hm w z a w' Hok Hz Hc E) as (new & Hf & Hs).
  exists new. split; [exact Hf |].
  eapply at_snapshot_mono; [| exact Hs]. intros v. apply HR.
Qed.

Lemma stores_bind {A B} file (m : M A) (k : A -> M B)
  (R1 R2 : nat -> list (string * string) -> Prop) :
  transacts m -> (forall a, transacts (k a)) ->
  stores file m R1 -> (forall a, stores file (k a) R2) ->
  stores file (bind m k)
    (fun v new => exists n1 n2, new = n1 ++ n2 /\ R1 v n1 /\ R2 v n2).
Proof.
  intros Tm Tk Hm Hk w z b w' Hok Hz Hc. unfold bind.
  destruct (m w) as [[e | a] w1] eqn:E1; [discriminate |]. intros E2.
  destruct (Hm w z a w1 Hok Hz Hc E1) as (n1 & Hf1 & Hs1).
  pose proof (Tm w Hok) as X1. rewrite E1 in X1. simpl in X1.
  destruct (Hk a w1 _ b w' (ext_conn_ok _ _ X1) Hf1 eq_refl E2)
    as (n2 & Hf2 & Hs2).
  pose proof (Tk a w1 (ext_conn_ok _ _ X1)) as X2. rewrite E2 in X2.
  simpl in X2, Hf2.
  exists (n1 ++ n2). rewrite app_assoc. split; [exact Hf2 |].
  apply (at_snapshot_extends w1 w' _ X2) in Hs1.
  eapply at_snapshot_mono; [| exact (at_snapshot_and _ _ _ Hs1 Hs2)].
  intros v [H1 H2]. now exists n1, n2.
Qed.

(** A step that writes nothing, then a step that writes. *)
Lemma stores_after {A B} file (m : M A) (k : A -> M B)
  (R : nat -> list (string * string) -> Prop) :
  keeps_files m -> transacts m ->
  (forall a, stores file (k a) R) -> stores file (bind m k) R.
Proof.
  intros Km Tm Hk w z b w' Hok Hz Hc. unfold bind.
  destruct (m w) as [[e | a] w1] eqn:E1; [discriminate |]. intros E2.
  pose proof (Tm w Hok) as X1. pose proof (Km w) as Y1.
  rewrite E1 in X1, Y1. simpl in X1, Y1.
  apply (Hk a w1 z b w' (ext_conn_ok _ _ X1)); [now rewrite Y1 | done | done].
Qed.

Lemma stores_for_each {A} file (body : A -> M unit)
  (Q : A -> nat -> string * string -> Prop) xs :
  (forall x, transacts (body x)) ->
  (forall x, stores file (body x) (fun v new => exists e, new = [e] /\ Q x v e)) ->
  stores file (for_each xs body)
    (fun v new => Forall2 (fun x e => Q x v e) xs new).
Proof.
  intros Tb Hb. induction xs as [| x xs IH]; simpl.
  - intros w z a w' _ Hz Hc [= _ <-]. exists []. rewrite app_nil_r.
    split; [| apply at_snapshot_all; constructor].
    rewrite Hz. destruct z; simpl in *; now subst.
  - eapply stores_weaken.
    + apply stores_bind; [apply Tb | | apply Hb | intros _; apply IH].
      intros _. now apply transacts_for_each.
    + intros v new (n1 & n2 & -> & (e & -> & He) & H2). now constructor.
Qed.

Section Stores.

Variable sys : System.
Variable make_options : string -> list string -> list string.
Variable self : Dumper.

(** A statement that returned was run inside the transaction, and what it
    returned is the answer at the transaction's snapshot. *)
Lemma execute_answer {R} c sql ps (answer : Pg.Database -> option R) w r w' :
  isolation_level c = REPEATABLE_READ ->
  execute sys c sql ps answer w = (inr r, w') ->
  exists v,
    open_snapshot w' = Some v
    /\ answer (history sys v) = Some r
    /\ files w' = files w.
Proof.
  intros Hrr. unfold execute, visible. simpl. rewrite Hrr. simpl.
  set (v := default (schedule sys (time w)) (snapshot c)).
  destruct (aborted c); [discriminate |].
  destruct (answer (history sys v)) as [r0 |] eqn:E; [| discriminate].
  intros [= <- <-]. now exists v.
Qed.

Lemma connection_isolation w c w' :
  conn_ok w -> connection sys w = (inr c, w') ->
  isolation_level c = REPEATABLE_READ /\ files w' = files w.
Proof.
  intros Hok. unfold connection.
  destruct (cached_connection w) as [c0 |] eqn:E.
  - intros [= <- <-]. split; [now apply Hok | done].
  - destruct (accepts_connections sys); [| discriminate].
    now intros [= <- <-].
Qed.

Lemma run_answer {R} sql ps (rows : Pg.Database -> list R) w r w' :
  conn_ok w -> run sys sql ps rows w = (inr r, w') ->
  exists v,
    open_snapshot w' = Some v /\ r = rows (history sys v)
    /\ files w' = files w.
Proof.
  intros Hok. unfold run, cursor, bind.
  destruct (connection sys w) as [[e | c] w1] eqn:E; [discriminate |].
  apply (connection_isolation w c w1 Hok) in E as [Hrr Hf]. intros H.
  apply (execute_answer c _ _ _ w1 r w' Hrr) in H as (v & Hs & [= <-] & Hf').
  exists v. split; [exact Hs |]. split; [done | congruence].
Qed.

Lemma export_to_csv_answer sql w data w' :
  conn_ok w -> export_to_csv sys sql w = (inr data, w') ->
  exists v,
    open_snapshot w' = Some v
    /\ Pg.copy (history sys v) (copy_statement sql) = Some data
    /\ files w' = files w.
Proof.
  intros Hok. unfold export_to_csv, cursor, bind.
  destruct (connection sys w) as [[e | c] w1] eqn:E; [discriminate |].
  apply (connection_isolation w c w1 Hok) in E as [Hrr Hf]. intros H.
  apply (execute_answer c _ _ _ w1 data w' Hrr) in H as (v & Hs & Ha & Hf').
  exists v. split; [exact Hs |]. split; [exact Ha | congruence].
Qed.

Lemma pg_dump_output args w out w' :
  pg_dump sys self args w = (inr out, w') ->
  dumped_by sys self args out
  /\ files w' = files w
  /\ cached_connection w' = cached_connection w.
Proof.
  unfold pg_dump. destruct (forallb _ _); [| discriminate].
  destruct (pg_dump_program _ _ _ _) as [o |] eqn:E; [| discriminate].
  intros [= <- <-]. split; [| done]. eexists. exact E.
Qed.

Lemma writestr_member file arcname data w w' z :
  files w !! file = Some z -> closed z = false ->
  writestr file arcname data w = (inr tt, w') ->
  files w' !! file
  = Some {| entries := entries z ++ [(arcname, data)]; closed := false |}
  /\ cached_connection w' = cached_connection w.
Proof.
  intros Hz Hc. unfold writestr. rewrite Hz, Hc. intros [= <-]. simpl.
  now rewrite lookup_insert_eq.
Qed.

Lemma stores_write_csv file table_name sql :
  stores file (write_csv sys file table_name sql)
    (fun v new => exists e, new = [e] /\ answered sys v (table_name, sql) e).
Proof.
  intros w z [] w' Hok Hz Hc. unfold write_csv, bind.
  destruct (export_to_csv sys sql w) as [[e | data] w1] eqn:E; [discriminate |].
  apply (export_to_csv_answer sql w data w1 Hok) in E as (v & Hs & Ha & Hf).
  intros H. apply (writestr_member file _ data w1 w' z) in H as [Hw Hcc];
    [| now rewrite Hf | done].
  eexists. split; [exact Hw |].
  apply (at_snapshot_same w1); [exact Hcc |].
  unfold at_snapshot. rewrite Hs. eexists. split; [reflexivity |].
  now split.
Qed.

Lemma stores_write_schema file :
  stores file (write_schema sys make_options self file)
    (schema_member sys make_options self).
Proof.
  intros w z [] w' Hok Hz Hc. unfold write_schema, dump_schema, bind.
  unfold get_selectable_tables.
  destruct (run sys _ _ _ w) as [[e | tables] w1] eqn:E; [discriminate |].
  apply (run_answer _ _ _ w tables w1 Hok) in E as (v & Hs & -> & Hf).
  destruct (pg_dump sys self _ w1) as [[e | out] w2] eqn:E2; [discriminate |].
  apply pg_dump_output in E2 as (Hout & Hf2 & Hc2).
  intros H. apply (writestr_member file _ out w2 w' z) in H as [Hw Hcc];
    [| now rewrite Hf2, Hf | done].
  eexists. split; [exact Hw |].
  apply (at_snapshot_same w1); [now rewrite Hcc |].
  unfold at_snapshot. rewrite Hs. now exists out.
Qed.

Lemma stores_write_sequences file :
  stores file (write_sequences sys make_options self file)
    (sequences_member sys make_options self).
Proof.
  intros w z [] w' Hok Hz Hc. unfold write_sequences, dump_sequences, bind.
  unfold get_sequences.
  destruct (run sys _ _ _ w) as [[e | seqs] w1] eqn:E; [discriminate |].
  apply (run_answer _ _ _ w seqs w1 Hok) in E as (v & Hs & -> & Hf).
  destruct (pg_dump sys self _ w1) as [[e | out] w2] eqn:E2; [discriminate |].
  apply pg_dump_output in E2 as (Hout & Hf2 & Hc2).
  intros H. apply (writestr_member file _ out w2 w' z) in H as [Hw Hcc];
    [| now rewrite Hf2, Hf | done].
  eexists. split; [exact Hw |].
  apply (at_snapshot_same w1); [now rewrite Hcc |].
  unfold at_snapshot. rewrite Hs. now exists out.
Qed.

Lemma stores_write_full_tables file tables :
  stores file (write_full_tables sys file tables)
    (fun v new =>
       Forall2 (answered sys v)
         (map (fun t => (t, "SELECT * FROM " +:+ t)) tables) new).
Proof.
  unfold write_full_tables. generalize tables at 2. intros excluded.
  eapply stores_weaken.
  - apply (stores_for_each file _
             (fun t v e => answered sys v (t, "SELECT * FROM " +:+ t) e)).
    + intros t. apply transacts_bind;
        [apply transacts_get_related_objects_queries |].
      intros _. apply transacts_write_csv.
    + intros t. apply stores_after.
      * apply keeps_files_get_related_objects_queries.
      * apply transacts_get_related_objects_queries.
      * intros _. apply stores_write_csv.
  - intros v new H. now apply Forall2_fmap_l.
Qed.

Lemma stores_write_partial_tables file config full_tables :
  stores file (write_partial_tables sys file config full_tables)
    (fun v new => Forall2 (answered sys v) config new).
Proof.
  apply (stores_for_each file _ (fun item v e => answered sys v item e)).
  - intros [t sql]. apply transacts_bind;
      [apply transacts_get_related_objects_queries |].
    intros _. apply transacts_bind; [apply transacts_run |].
    intros rows. apply transacts_bind; [apply transacts_print |].
    intros _. apply transacts_write_csv.
  - intros [t sql]. apply stores_after.
    { apply keeps_files_get_related_objects_queries. }
    { apply transacts_get_related_objects_queries. }
    intros _. apply stores_after;
      [apply keeps_files_run | apply transacts_run |].
    intros rows. apply stores_after;
      [apply keeps_files_print | apply transacts_print |].
    intros _. apply stores_write_csv.
Qed.

Lemma snapshots_run {R} sql ps (rows : Pg.Database -> list R) :
  snapshots (run sys sql ps rows).
Proof.
  intros w r w'. unfold run, cursor, bind.
  destruct (connection sys w) as [[e | c] w1]; [discriminate |].
  unfold execute. destruct (aborted c); [discriminate |].
  intros [= _ <-]. simpl. now eexists.
Qed.

Lemma snapshots_write_schema file :
  snapshots (write_schema sys make_options self file).
Proof.
  intros w [] w'. unfold write_schema, dump_schema, bind.
  unfold get_selectable_tables.
  destruct (run sys _ _ _ w) as [[e | tables] w1] eqn:E; [discriminate |].
  apply snapshots_run in E.
  destruct (pg_dump sys self _ w1) as [[e | out] w2] eqn:E2; [discriminate |].
  apply pg_dump_output in E2 as (_ & _ & Hc2).
  unfold writestr. destruct (files w2 !! file) as [z |]; [| discriminate].
  destruct (closed z); [discriminate |]. intros [= <-].
  unfold open_snapshot in *. simpl. now rewrite Hc2.
Qed.

(** The contents of the archive of a [dump] that returned. *)
Lemma dump_contents filename full_tables partial_tables w w' :
  conn_ok w ->
  dump sys make_options self filename full_tables partial_tables w
  = (inr tt, w') ->
  exists v first second data,
    open_snapshot w' = Some v
    /\ files w' !! filename
       = Some {| entries := first ++ second ++ data; closed := true |}
    /\ schema_member sys make_options self v first
    /\ sequences_member sys make_options self v second
    /\ Forall2 (answered sys v) (selections full_tables partial_tables) data.
Proof.
  intros Hok. unfold dump, with_Dump.
  destruct (writable sys filename); [| discriminate].
  set (ft := Py.or_else Py.truthy_list full_tables []).
  set (pt := Py.or_else Py.truthy_list partial_tables []).
  set (opened := Build_World _ _ _ _ _).
  set (rest := bind (write_sequences sys make_options self filename) _).
  assert (Trest : transacts rest).
  { apply transacts_bind; [apply transacts_write_sequences |]. intros _.
    apply transacts_bind; [apply transacts_write_full_tables |]. intros _.
    apply transacts_write_partial_tables. }
  assert (Hrest : stores filename rest
    (fun v new => exists n2 n3,
         new = n2 ++ n3
         /\ sequences_member sys make_options self v n2
         /\ Forall2 (answered sys v) (selections full_tables partial_tables) n3)).
  { eapply stores_weaken.
    - apply stores_bind;
        [apply transacts_write_sequences | | apply stores_write_sequences |].
      + intros _. apply transacts_bind; [apply transacts_write_full_tables |].
        intros _. apply transacts_write_partial_tables.
      + intros _. apply stores_bind;
          [apply transacts_write_full_tables | | apply stores_write_full_tables |].
        * intros _. apply transacts_write_partial_tables.
        * intros _. apply stores_write_partial_tables.
    - intros v new (n2 & n34 & -> & H2 & n3 & n4 & -> & H3 & H4).
      exists n2, (n3 ++ n4). split; [done |]. split; [exact H2 |].
      unfold selections. fold ft pt. now apply Forall2_app. }
  unfold bind at 1.
  destruct (write_schema sys make_options self filename opened)
    as [[e | []] w1] eqn:E1; [discriminate |].
  destruct (rest w1) as [[e | []] w2] eqn:E2; [discriminate |].
  intros [= <-].
  assert (Hok0 : conn_ok opened) by exact Hok.
  destruct (stores_write_schema filename opened
              {| entries := []; closed := false |} tt w1 Hok0)
    as (n1 & Hf1 & Hs1); [apply lookup_insert_eq | done | exact E1 |].
  pose proof (transacts_write_schema sys make_options self filename opened Hok0)
    as X1. rewrite E1 in X1. simpl in X1.
  destruct (snapshots_write_schema filename opened tt w1 E1) as [v Hv].
  destruct (Hrest w1 _ tt w2 (ext_conn_ok _ _ X1) Hf1 eq_refl E2)
    as (n23 & Hf2 & Hs2).
  pose proof (Trest w1 (ext_conn_ok _ _ X1)) as X2. rewrite E2 in X2.
  simpl in X2, Hf1, Hf2.
  pose proof (open_snapshot_extends w1 w2 v X2 Hv) as Hv2.
  unfold at_snapshot in Hs1, Hs2. rewrite Hv in Hs1. rewrite Hv2 in Hs2.
  destruct Hs2 as (n2 & n3 & -> & H2 & H3).
  exists v, n1, n2, n3. unfold close_archive. simpl.
  rewrite Hf2, lookup_insert_eq. simpl.
  split; [exact Hv2 |]. split; [reflexivity | done].
Qed.

End Stores.

(** X6: what the archive of a [dump] that returned holds for the tables.
    After the two members for schema and sequences come exactly one member
    per full table and one per partial table, in that order, and each holds
    the server's answer to the COPY of its selection ([SELECT * FROM t] for
    a full table, the given SQL for a partial one), all of them at one and
    the same version: the snapshot of the transaction, which is still open.
    What other sessions commit while [dump] runs is in none of them. *)
Theorem dump_data_at_one_snapshot (sys : System)
  (make_options : string -> list string -> list string) (self : Dumper)
  (filename : string) (full_tables : option (list string))
  (partial_tables : option (list (string * string))) (w w' : World) :
  conn_ok w ->
  dump sys make_options self filename full_tables partial_tables w
  = (inr tt, w') ->
  exists version z,
    open_snapshot w' = Some version
    /\ files w' !! filename = Some z
    /\ Forall2 (answered sys version)
         (selections full_tables partial_tables) (drop 2 (entries z)).
Proof.
  intros Hok E.
  destruct (dump_contents sys make_options self filename full_tables
              partial_tables w w' Hok E)
    as (v & n1 & n2 & data & Hv & Hf & (o1 & -> & _) & (o2 & -> & _) & Hd).
  exists v. eexists. split; [exact Hv |]. split; [exact Hf |]. exact Hd.
Qed.

Lemma dump_data_at_one_snapshot_witness :
  exists version z,
    open_snapshot
      (dump Fixture.system Fixture.make_options Fixture.dumper "dump.zip"
         (Some ["employees"; "groups"]) None Fixture.world).2
    = Some version
    /\ files
         (dump Fixture.system Fixture.make_options Fixture.dumper "dump.zip"
            (Some ["employees"; "groups"]) None Fixture.world).2
       !! "dump.zip" = Some z
    /\ Forall2 (answered Fixture.system version)
         (selections (Some ["employees"; "groups"]) None)
         (drop 2 (entries z)).
Proof.
  apply (dump_data_at_one_snapshot Fixture.system Fixture.make_options
           Fixture.dumper "dump.zip" (Some ["employees"; "groups"]) None
           Fixture.world).
  - intros c H. discriminate H.
  - now vm_compute.
Defined.

(** X7: the first two members of the archive of a [dump] that returned are
    [dump/schema.sql] and [dump/sequences.sql], and they hold what [pg_dump]
    printed when run with [-s -x], respectively [-a], followed by the
    options [make_options] builds from the selectable tables, respectively
    the sequences, as the catalog lists them at the snapshot of the
    transaction; the child is given [pg_dump_environment]. *)
Theorem dump_schema_and_sequences (sys : System)
  (make_options : string -> list string -> list string) (self : Dumper)
  (filename : string) (full_tables : option (list string))
  (partial_tables : option (list (string * string))) (w w' : World) :
  conn_ok w ->
  dump sys make_options self filename full_tables partial_tables w
  = (inr tt, w') ->
  exists version z schema sequences,
    open_snapshot w' = Some version
    /\ files w' !! filename = Some z
    /\ take 2 (entries z)
       = [("dump/schema.sql", schema); ("dump/sequences.sql", sequences)]
    /\ dumped_by sys self
         (["-s"; "-x"]
          ++ make_options "-t" (Pg.selectable_tables (history sys version)))
         schema
    /\ dumped_by sys self
         (["-a"] ++ make_options "-t" (Pg.sequences (history sys version)))
         sequences.
Proof.
  intros Hok E.
  destruct (dump_contents sys make_options self filename full_tables
              partial_tables w w' Hok E)
    as (v & n1 & n2 & data & Hv & Hf & (o1 & -> & H1) & (o2 & -> & H2) & Hd).
  exists v. eexists _, o1, o2. split; [exact Hv |]. split; [exact Hf |].
  split; [reflexivity |]. split; [exact H1 | exact H2].
Qed.

Lemma dump_schema_and_sequences_witness :
  exists version z schema sequences,
    open_snapshot
      (dump Fixture.system Fixture.make_options Fixture.dumper "dump.zip"
         None None Fixture.world).2
    = Some version
    /\ files
         (dump Fixture.system Fixture.make_options Fixture.dumper "dump.zip"
            None None Fixture.world).2
       !! "dump.zip" = Some z
    /\ take 2 (entries z)
       = [("dump/schema.sql", schema); ("dump/sequences.sql", sequences)]
    /\ dumped_by Fixture.system Fixture.dumper
         (["-s"; "-x"]
          ++ Fixture.make_options "-t"
               (Pg.selectable_tables (history Fixture.system version)))
         schema
    /\ dumped_by Fixture.system Fixture.dumper
         (["-a"]
          ++ Fixture.make_options "-t"
               (Pg.sequences (history Fixture.system version)))
         sequences.
Proof.
  apply (dump_schema_and_sequences Fixture.system Fixture.make_options
           Fixture.dumper "dump.zip" None None Fixture.world).
  - intros c H. discriminate H.
  - now vm_compute.
Defined.

(** X8: [dump] returns whenever the archive can be opened, a connection is
    cached, its transaction not aborted, or the server accepts one, the
    port of the [Dumper] is a string, [pg_dump] can be started, and the
    server accepts the COPY of every selection, whatever the catalog holds
    and whatever other sessions commit meanwhile. *)
Theorem dump_returns_when_served (sys : System)
  (make_options : string -> list string -> list string) (self : Dumper)
  (filename : string) (full_tables : option (list string))
  (partial_tables : option (list (string * string))) (w : World) :
  writable sys filename = true ->
  accepts_connections sys = true \/ is_Some (cached_connection w) ->
  (forall c, cached_connection w = Some c -> aborted c = false) ->
  Py.is_str (port self) = true ->
  (forall db argv env, is_Some (pg_dump_program sys db argv env)) ->
  (forall item version,
      In item (selections full_tables partial_tables) ->
      is_Some (Pg.copy (history sys version) (copy_statement item.2))) ->
  exists w',
    dump sys make_options self filename full_tables partial_tables w
    = (inr tt, w').
Proof.
  intros Hw Hc Hh Hport Hpg Hcopy.
  apply dump_returns;
    [exact Hw | exact Hc | exact Hh | exact Hport | exact Hpg | |].
  - intros t version Ht.
    apply (Hcopy (t, "SELECT * FROM " +:+ t) version).
    unfold selections. apply in_or_app. left.
    now apply (in_map (fun t => (t, "SELECT * FROM " +:+ t))).
  - intros item version Hi. apply Hcopy.
    unfold selections. apply in_or_app. now right.
Qed.

Lemma dump_returns_when_served_witness :
  exists w',
    dump Fixture.system Fixture.make_options Fixture.dumper "dump.zip"
      (Some ["groups"]) (Some [("employees", Fixture.LIMITED_SQL)])
      Fixture.world
    = (inr tt, w').
Proof.
  apply (dump_returns_when_served Fixture.system Fixture.make_options
           Fixture.dumper "dump.zip" (Some ["groups"])
           (Some [("employees", Fixture.LIMITED_SQL)]) Fixture.world).
  - reflexivity.
  - now left.
  - intros c H. discriminate H.
  - reflexivity.
  - intros db argv env. now eexists.
  - intros item version [<- | [<- | []]]; now eexists.
Defined.

(** ** One connection *)

Lemma same_connection_same w w' :
  cached_connection w' = cached_connection w ->
  connections w' = connections w -> same_connection w w'.
Proof.
  intros Hc Hn. unfold same_connection. rewrite Hc.
  destruct (cached_connection w) as [c |]; [| now left].
  split; [now exists c | exact Hn].
Qed.

Lemma same_connection_trans w1 w2 w3 :
  same_connection w1 w2 -> same_connection w2 w3 -> same_connection w1 w3.
Proof.
  unfold same_connection.
  destruct (cached_connection w1) as [c1 |].
  - intros [(c2 & -> & Hi) Hn] [(c3 & H3 & Hi3) Hn3].
    split; [exists c3; split; [exact H3 | congruence] | congruence].
  - intros [[-> Hn] | (c2 & -> & Hi & Hn)].
    + intros [[H3 Hn3] | (c3 & H3 & Hi3 & Hn3)].
      * left. split; [exact H3 | congruence].
      * right. exists c3. split; [exact H3 |]. split; congruence.
    + intros [(c3 & H3 & Hi3) Hn3]. right. exists c3.
      split; [exact H3 |]. split; congruence.
Qed.

Lemma reuses_ret {A} (a : A) : reuses (ret a).
Proof. intros w. now apply same_connection_same. Qed.

Lemma reuses_bind {A B} (m : M A) (k : A -> M B) :
  reuses m -> (forall a, reuses (k a)) -> reuses (bind m k).
Proof.
  intros Hm Hk w. specialize (Hm w). unfold bind.
  destruct (m w) as [[e | a] w1]; simpl in *; [done |].
  eapply same_connection_trans; [exact Hm | apply Hk].
Qed.

Lemma reuses_for_each {A} (body : A -> M unit) xs :
  (forall x, reuses (body x)) -> reuses (for_each xs body).
Proof.
  intros Hbody. induction xs as [| x xs IH]; simpl.
  - apply reuses_ret.
  - apply reuses_bind; [apply Hbody | now intros].
Qed.

Lemma reuses_writestr file arcname data : reuses (writestr file arcname data).
Proof.
  intros w. unfold writestr.
  destruct (files w !! file) as [z |]; [| now apply same_connection_same].
  destruct (closed z); now apply same_connection_same.
Qed.

Section Reuses.

Variable sys : System.
Variable make_options : string -> list string -> list string.
Variable self : Dumper.

Lemma reuses_connection : reuses (connection sys).
Proof.
  intros w. unfold connection, same_connection.
  destruct (cached_connection w) as [c |] eqn:E.
  - simpl. rewrite E. split; [now exists c | done].
  - destruct (accepts_connections sys); simpl.
    + right. now eexists.
    + left. now rewrite E.
Qed.

Lemma execute_same_connection {R} c sql ps (answer : Pg.Database -> option R) w :
  cached_connection w = Some c ->
  same_connection w (execute sys c sql ps answer w).2.
Proof.
  intros Hc. unfold execute, same_connection. rewrite Hc.
  destruct (aborted c); [simpl; split; [now eexists | done] |].
  destruct (answer _); simpl; (split; [now eexists | done]).
Qed.

Lemma reuses_run {R} sql ps (rows : Pg.Database -> list R) :
  reuses (run sys sql ps rows).
Proof.
  intros w. unfold run, cursor, bind.
  pose proof (reuses_connection w) as H1.
  destruct (connection sys w) as [[e | c] w1] eqn:E; [exact H1 |].
  eapply same_connection_trans; [exact H1 |].
  apply execute_same_connection. now apply connection_cached in E.
Qed.

Lemma reuses_export_to_csv sql : reuses (export_to_csv sys sql).
Proof.
  intros w. unfold export_to_csv, cursor, bind.
  pose proof (reuses_connection w) as H1.
  destruct (connection sys w) as [[e | c] w1] eqn:E; [exact H1 |].
  eapply same_connection_trans; [exact H1 |].
  apply execute_same_connection. now apply connection_cached in E.
Qed.

Lemma reuses_pg_dump args : reuses (pg_dump sys self args).
Proof.
  intros w. unfold pg_dump.
  destruct (forallb _ _); [| now apply same_connection_same].
  destruct (pg_dump_program _ _ _ _); now apply same_connection_same.
Qed.

Lemma reuses_print rows : reuses (print rows).
Proof. intros w. now apply same_connection_same. Qed.

Lemma reuses_get_related_objects_queries table_name full_tables :
  reuses (get_related_objects_queries sys table_name full_tables).
Proof.
  apply reuses_bind; [apply reuses_run |].
  intros rows w. rewrite related_queries_dict_fold.
  now apply same_connection_same.
Qed.

Lemma reuses_write_csv file table_name sql :
  reuses (write_csv sys file table_name sql).
Proof.
  apply reuses_bind; [apply reuses_export_to_csv |].
  intros ?. apply reuses_writestr.
Qed.

Lemma reuses_write_schema file :
  reuses (write_schema sys make_options self file).
Proof.
  apply reuses_bind; [| intros ?; apply reuses_writestr].
  apply reuses_bind; [apply reuses_run |]. intros ?. apply reuses_pg_dump.
Qed.

Lemma reuses_rest file full_tables partial_tables :
  reuses
    (write_sequences sys make_options self file ;;;
     write_full_tables sys file full_tables ;;;
     write_partial_tables sys file partial_tables full_tables).
Proof.
  apply reuses_bind.
  { apply reuses_bind; [| intros ?; apply reuses_writestr].
    apply reuses_bind; [apply reuses_run |]. intros ?. apply reuses_pg_dump. }
  intros _. apply reuses_bind.
  { apply reuses_for_each. intros t.
    apply reuses_bind; [apply reuses_get_related_objects_queries |].
    intros _. apply reuses_write_csv. }
  intros _. apply reuses_for_each. intros [t sql].
  apply reuses_bind; [apply reuses_get_related_objects_queries |].
  intros _. apply reuses_bind; [apply reuses_run |].
  intros rows. apply reuses_bind; [apply reuses_print |].
  intros _. apply reuses_write_csv.
Qed.

Lemma same_connection_kept w w' :
  same_connection w w' -> is_Some (cached_connection w) ->
  is_Some (cached_connection w').
Proof.
  unfold same_connection. intros H [c Hc]. rewrite Hc in H.
  destruct H as [(c' & -> & _) _]. now eexists.
Qed.

Lemma dump_same_connection filename full_tables partial_tables w :
  same_connection w
    (dump sys make_options self filename full_tables partial_tables w).2
  /\ ((dump sys make_options self filename full_tables partial_tables w).1
      = inr tt ->
      is_Some
        (cached_connection
           (dump sys make_options self filename full_tables partial_tables w).2)).
Proof.
  unfold dump, with_Dump.
  destruct (writable sys filename);
    [| split; [now apply same_connection_same | discriminate]].
  set (ft := Py.or_else Py.truthy_list full_tables []).
  set (pt := Py.or_else Py.truthy_list partial_tables []).
  set (opened := Build_World _ _ _ _ _).
  match goal with
  | |- context [bind ?m ?k opened] =>
      change (bind m k opened)
        with (match m opened with
              | (inr a, w') => k a w'
              | (inl e, w') => (inl e, w')
              end)
  end.
  pose proof (reuses_write_schema filename opened) as H1.
  pose proof (snapshots_write_schema sys make_options self filename opened)
    as S1.
  destruct (write_schema sys make_options self filename opened)
    as [[e | []] w1] eqn:E1; simpl in *.
  { split; [exact H1 | discriminate]. }
  pose proof (reuses_rest filename ft pt w1) as H2.
  match type of H2 with context [(?b).2] => destruct b as [r w2] end.
  simpl in *.
  assert (H : same_connection w w2).
  { exact (same_connection_trans opened w1 w2 H1 H2). }
  split; [exact H |]. intros _.
  apply (same_connection_kept w1 w2 H2).
  destruct (S1 tt w1 eq_refl) as [v Hv]. unfold open_snapshot in Hv.
  destruct (cached_connection w1); [now eexists | discriminate].
Qed.

End Reuses.

(** X9: a [Dumper] works on one connection.  A [dump] opens no connection
    when one is cached and keeps the cached one; it opens at most one
    otherwise; and when it has returned, one is cached: every later [dump]
    of that [Dumper] runs on it. *)
Theorem dump_opens_one_connection (sys : System)
  (make_options : string -> list string -> list string) (self : Dumper)
  (filename : string) (full_tables : option (list string))
  (partial_tables : option (list (string * string))) (w : World) :
  connections
    (dump sys make_options self filename full_tables partial_tables w).2
  <= S (connections w)
  /\ (forall c,
         cached_connection w = Some c ->
         connections
           (dump sys make_options self filename full_tables partial_tables w).2
         = connections w
         /\ exists c',
              cached_connection
                (dump sys make_options self filename full_tables
                   partial_tables w).2 = Some c'
              /\ conn_id c' = conn_id c)
  /\ ((dump sys make_options self filename full_tables partial_tables w).1
      = inr tt ->
      is_Some
        (cached_connection
           (dump sys make_options self filename full_tables partial_tables w).2)).
Proof.
  destruct (dump_same_connection sys make_options self filename full_tables
              partial_tables w) as [H Hret].
  split; [| split; [| exact Hret]].
  - unfold same_connection in H.
    destruct (cached_connection w);
      [destruct H as [_ ->]; lia
      | destruct H as [[_ ->] | (c' & _ & _ & ->)]; lia].
  - intros c Hc. unfold same_connection in H. rewrite Hc in H.
    destruct H as [Hex Hn]. now split.
Qed.

(** ** All the statements of a dump *)

Section IssuesDump.

Variable sys : System.
Variable make_options : string -> list string -> list string.
Variable self : Dumper.

Lemma issues_pg_dump args : issues (pg_dump sys self args) [].
Proof.
  intros w. unfold pg_dump.
  destruct (forallb _ _); [| exists []; rewrite app_nil_r; issued].
  destruct (pg_dump_program _ _ _ _).
  - now eexists [_].
  - exists []. rewrite app_nil_r. issued.
Qed.

Lemma issues_write_schema file :
  issues (write_schema sys make_options self file) [(SELECTABLE_TABLES_SQL, [])].
Proof.
  apply (issues_bind _ _ [_] []); [| intros ?; apply issues_writestr].
  apply (issues_bind _ _ [_] []); [apply issues_run |].
  intros ?. apply issues_pg_dump.
Qed.

Lemma issues_write_sequences file :
  issues (write_sequences sys make_options self file) [(SEQUENCES_SQL, [])].
Proof.
  apply (issues_bind _ _ [_] []); [| intros ?; apply issues_writestr].
  apply (issues_bind _ _ [_] []); [apply issues_run |].
  intros ?. apply issues_pg_dump.
Qed.

Lemma issues_dump filename full_tables partial_tables :
  issues (dump sys make_options self filename full_tables partial_tables)
    (dump_statements full_tables partial_tables).
Proof.
  intros w. unfold dump, with_Dump.
  destruct (writable sys filename).
  2: { exists []. rewrite app_nil_r. issued. }
  set (ft := Py.or_else Py.truthy_list full_tables []).
  set (pt := Py.or_else Py.truthy_list partial_tables []).
  set (opened := Build_World _ _ _ _ _).
  set (body := bind _ _).
  assert (Hb : issues body (dump_statements full_tables partial_tables)).
  { unfold dump_statements. fold ft pt.
    apply (issues_bind _ _ [_] (_ :: _)); [apply issues_write_schema |].
    intros _. apply (issues_bind _ _ [_]); [apply issues_write_sequences |].
    intros _. apply issues_bind; [apply issues_write_full_tables |].
    intros _. apply issues_write_partial_tables. }
  destruct (Hb opened) as (evs & Ht & Hr).
  destruct (body opened) as [r w1]. simpl in *.
  exists evs. split; [exact Ht | exact Hr].
Qed.

End IssuesDump.

(** X10: all a [dump] sends on its connection, in order: the query for the
    selectable tables, the query for the sequences, for each full table the
    non-recursive relations query and the COPY of [SELECT * FROM t], and
    for each partial table the two relations queries and the COPY of its
    SQL.  When [dump] returns these are exactly the statements sent; when it
    raises, the first few of them.  In particular no COMMIT or ROLLBACK is
    sent, and no statement for a table that is neither full nor partial. *)
Theorem dump_sends_exactly (sys : System)
  (make_options : string -> list string -> list string) (self : Dumper)
  (filename : string) (full_tables : option (list string))
  (partial_tables : option (list (string * string))) (w : World) :
  exists evs,
    trace (dump sys make_options self filename full_tables partial_tables w).2
    = trace w ++ evs
    /\ match
         (dump sys make_options self filename full_tables partial_tables w).1
       with
       | inr _ => statements evs = dump_statements full_tables partial_tables
       | inl _ =>
           statements evs `prefix_of` dump_statements full_tables partial_tables
       end.
Proof.
  exact (issues_dump sys make_options self filename full_tables
           partial_tables w).
Qed.

(** * Failure *)

(** ** The body of [dump] as a sequence of steps *)

Lemma bind_assoc {A B C} (m : M A) (f : A -> M B) (g : B -> M C) w :
  bind (bind m f) g w = bind m (fun a => bind (f a) g) w.
Proof. unfold bind. now destruct (m w) as [[e | a] w1]. Qed.

Lemma bind_ext {A B} (m m' : M A) (k k' : A -> M B) w :
  (forall w0, m w0 = m' w0) -> (forall a w0, k a w0 = k' a w0) ->
  bind m k w = bind m' k' w.
Proof.
  intros Hm Hk. unfold bind. rewrite Hm.
  destruct (m' w) as [[e | a] w1]; [done | apply Hk].
Qed.

Lemma bind_ret_tt (m : M unit) w : bind m (fun _ => ret tt) w = m w.
Proof. unfold bind, ret. now destruct (m w) as [[e | []] w1]. Qed.

Lemma sequence_app steps1 steps2 w :
  sequence_ (steps1 ++ steps2) w
  = bind (sequence_ steps1) (fun _ => sequence_ steps2) w.
Proof.
  revert w. induction steps1 as [| step steps1 IH]; intros w; simpl.
  - reflexivity.
  - rewrite bind_assoc. apply bind_ext; [done |]. intros _ w0. apply IH.
Qed.

Lemma for_each_sequence {A} (xs : list A) (body : A -> M unit) w :
  for_each xs body w = sequence_ (map body xs) w.
Proof.
  revert w. induction xs as [| x xs IH]; intros w; simpl; [done |].
  apply bind_ext; [done |]. intros _ w0. apply IH.
Qed.

(** The body of [dump] runs the steps of [dump_steps], in order. *)
Lemma dump_body_steps sys make_options self file full_tables partial_tables w :
  (write_schema sys make_options self file ;;;
   write_sequences sys make_options self file ;;;
   write_full_tables sys file full_tables ;;;
   write_partial_tables sys file partial_tables full_tables) w
  = sequence_
      (dump_steps sys make_options self file full_tables partial_tables) w.
Proof.
  unfold dump_steps. simpl.
  apply bind_ext; [done |]. intros _ w1.
  apply bind_ext; [done |]. intros _ w2.
  rewrite sequence_app.
  apply bind_ext; intros; apply for_each_sequence.
Qed.

(** A sequence that raises has run some steps to their end, and the next
    one raised. *)
Lemma sequence_raises steps w e w' :
  sequence_ steps w = (inl e, w') ->
  exists completed failing rest w1,
    steps = completed ++ failing :: rest
    /\ sequence_ completed w = (inr tt, w1)
    /\ failing w1 = (inl e, w').
Proof.
  revert w. induction steps as [| step steps IH]; intros w; simpl.
  - discriminate.
  - unfold bind at 1. destruct (step w) as [[e1 | []] w1] eqn:E1.
    + intros [= <- <-]. now exists [], step, steps, w.
    + intros H. destruct (IH w1 H) as (completed & failing & rest & w2 & -> & Hc & Hf).
      exists (step :: completed), failing, rest, w2.
      split; [done |]. split; [| exact Hf].
      simpl. unfold bind. now rewrite E1.
Qed.

(** ** What each step writes *)

Lemma one_member_writestr file arcname data :
  one_member file (writestr file arcname data) arcname.
Proof.
  intros w z Hz Hc. unfold writestr. rewrite Hz, Hc. simpl.
  exists data. now rewrite lookup_insert_eq.
Qed.

Lemma one_member_after {A} file (m : M A) (k : A -> M unit) name :
  keeps_files m -> (forall a, one_member file (k a) name) ->
  one_member file (bind m k) name.
Proof.
  intros Hm Hk w z Hz Hc. specialize (Hm w). unfold bind.
  destruct (m w) as [[e | a] w1]; simpl in Hm; [exact Hm |].
  specialize (Hk a w1 z). rewrite Hm in Hk. specialize (Hk Hz Hc).
  destruct (k a w1) as [[e | u] w2]; [congruence | exact Hk].
Qed.

Lemma one_member_write_csv sys file table_name sql :
  one_member file (write_csv sys file table_name sql) (csv_path table_name).
Proof.
  apply one_member_after; [apply keeps_files_export_to_csv |].
  intros data. apply one_member_writestr.
Qed.

Lemma dump_steps_members sys make_options self file full_tables partial_tables :
  Forall2 (one_member file)
    (dump_steps sys make_options self file full_tables partial_tables)
    (["dump/schema.sql"; "dump/sequences.sql"]
     ++ map csv_path full_tables
     ++ map (fun item => csv_path item.1) partial_tables).
Proof.
  unfold dump_steps. apply Forall2_app; [| apply Forall2_app].
  - constructor; [| constructor; [| constructor]].
    + apply one_member_after; [apply keeps_files_dump_schema |].
      intros data. apply one_member_writestr.
    + apply one_member_after; [apply keeps_files_dump_sequences |].
      intros data. apply one_member_writestr.
  - generalize full_tables at 1. intros excluded.
    induction full_tables as [| t ts IH]; simpl; constructor; [| exact IH].
    apply one_member_after;
      [apply keeps_files_get_related_objects_queries |].
    intros _. apply one_member_write_csv.
  - induction partial_tables as [| [t sql] items IH]; simpl; constructor;
      [| exact IH].
    apply one_member_after;
      [apply keeps_files_get_related_objects_queries |].
    intros _. apply one_member_after; [apply keeps_files_run |].
    intros rows. apply one_member_after; [apply keeps_files_print |].
    intros _. apply one_member_write_csv.
Qed.

(** Steps that returned have written their members, one each, in order. *)
Lemma sequence_members file steps names w z w1 :
  Forall2 (one_member file) steps names ->
  files w !! file = Some z -> closed z = false ->
  sequence_ steps w = (inr tt, w1) ->
  exists new,
    files w1 !! file
    = Some {| entries := entries z ++ new; closed := false |}
    /\ map fst new = names.
Proof.
  intros Hsteps. revert w z.
  induction Hsteps as [| step name steps names Hstep _ IH]; intros w z Hz Hc;
    simpl.
  - intros [= <-]. exists []. rewrite app_nil_r. split; [| done].
    rewrite Hz. destruct z; simpl in *. now subst.
  - unfold bind. specialize (Hstep w z Hz Hc).
    destruct (step w) as [[e | []] w2]; [discriminate |].
    destruct Hstep as [data Hf]. intros H.
    destruct (IH w2 _ Hf eq_refl H) as (new & Hf1 & Hn). simpl in Hf1.
    exists ((name, data) :: new). rewrite <- app_assoc in Hf1.
    split; [exact Hf1 | simpl; now rewrite Hn].
Qed.

Lemma Forall2_app_inv_l_length {A B} (P : A -> B -> Prop) l1 l2 k :
  Forall2 P (l1 ++ l2) k ->
  Forall2 P l1 (take (length l1) k) /\ Forall2 P l2 (drop (length l1) k).
Proof.
  revert k. induction l1 as [| x l1 IH]; intros k H; simpl in *.
  - rewrite drop_0. split; [constructor | exact H].
  - apply Forall2_cons_inv_l in H as (y & k' & Hxy & Hrest & ->).
    destruct (IH k' Hrest) as [H1 H2]. simpl. split; [now constructor | done].
Qed.

(** C6: an exception raised in [dump] goes on to the caller, and the
    archive is not deleted.  When the archive had been opened, the steps of
    [dump] before the one that raised have each run to their end, the step
    that raised has written nothing, nothing runs after it but the closing
    of the archive, and the archive stays at [filename], closed, holding
    exactly what those steps wrote: their members, in order, one for each.
    When the archive cannot be opened, nothing is changed. *)
Theorem failed_dump_keeps_archive (sys : System)
  (make_options : string -> list string -> list string) (self : Dumper)
  (filename : string) (full_tables : option (list string))
  (partial_tables : option (list (string * string))) (w w' : World) (e : exn) :
  dump sys make_options self filename full_tables partial_tables w
  = (inl e, w') ->
  if writable sys filename then
    exists completed failing rest w1 w2 written,
      dump_steps sys make_options self filename
        (Py.or_else Py.truthy_list full_tables [])
        (Py.or_else Py.truthy_list partial_tables [])
      = completed ++ failing :: rest
      /\ sequence_ completed (opened filename w) = (inr tt, w1)
      /\ files w1 !! filename = Some {| entries := written; closed := false |}
      /\ map fst written
         = take (length completed) (dump_names full_tables partial_tables)
      /\ failing w1 = (inl e, w2)
      /\ files w2 = files w1
      /\ w' = close_archive filename w2
      /\ files w' !! filename = Some {| entries := written; closed := true |}
  else e = OSError filename /\ w' = w.
Proof.
  unfold dump, with_Dump. destruct (writable sys filename) eqn:Hw.
  2: { now intros [= <- <-]. }
  fold (opened filename w).
  set (ft := Py.or_else Py.truthy_list full_tables []).
  set (pt := Py.or_else Py.truthy_list partial_tables []).
  rewrite dump_body_steps.
  destruct (sequence_ _ (opened filename w)) as [r w2] eqn:E.
  intros [= -> <-].
  destruct (sequence_raises _ _ _ _ E)
    as (completed & failing & rest & w1 & Hsteps & Hc & Hf).
  pose proof (dump_steps_members sys make_options self filename ft pt) as Hm.
  rewrite Hsteps in Hm.
  apply Forall2_app_inv_l_length in Hm as [Hm1 Hm2].
  destruct (sequence_members filename completed _ (opened filename w)
              {| entries := []; closed := false |} w1 Hm1)
    as (written & Hf1 & Hn); [apply lookup_insert_eq | done | exact Hc |].
  simpl in Hf1.
  assert (Hfail : files w2 = files w1).
  { destruct (drop (length completed) _) as [| name names] eqn:Ed;
      [inversion Hm2 |].
    apply Forall2_cons_1 in Hm2 as [Hone _].
    specialize (Hone w1 _ Hf1 eq_refl). now rewrite Hf in Hone. }
  exists completed, failing, rest, w1, w2, written.
  split; [exact Hsteps |]. split; [exact Hc |]. split; [exact Hf1 |].
  split; [exact Hn |]. split; [exact Hf |]. split; [exact Hfail |].
  split; [reflexivity |].
  unfold close_archive. simpl. rewrite Hfail, Hf1. simpl.
  now rewrite lookup_insert_eq.
Qed.

Lemma failed_dump_keeps_archive_witness :
  if writable Fixture.system "dump.zip" then
    exists completed failing rest w1 w2 written,
      dump_steps Fixture.system Fixture.make_options Fixture.dumper "dump.zip"
        (Py.or_else Py.truthy_list None [])
        (Py.or_else Py.truthy_list (Some [("employees", "SELEC")]) [])
      = completed ++ failing :: rest
      /\ sequence_ completed (opened "dump.zip" Fixture.world) = (inr tt, w1)
      /\ files w1 !! "dump.zip"
         = Some {| entries := written; closed := false |}
      /\ map fst written
         = take (length completed)
             (dump_names None (Some [("employees", "SELEC")]))
      /\ failing w1
         = (inl (DatabaseError "COPY (SELEC) TO STDOUT WITH CSV HEADER"), w2)
      /\ files w2 = files w1
      /\ (dump Fixture.system Fixture.make_options Fixture.dumper "dump.zip"
            None (Some [("employees", "SELEC")]) Fixture.world).2
         = close_archive "dump.zip" w2
      /\ files
           (dump Fixture.system Fixture.make_options Fixture.dumper "dump.zip"
              None (Some [("employees", "SELEC")]) Fixture.world).2
         !! "dump.zip"
         = Some {| entries := written; closed := true |}
  else
    DatabaseError "COPY (SELEC) TO STDOUT WITH CSV HEADER" = OSError "dump.zip"
    /\ (dump Fixture.system Fixture.make_options Fixture.dumper "dump.zip"
          None (Some [("employees", "SELEC")]) Fixture.world).2
       = Fixture.world.
Proof.
  apply (failed_dump_keeps_archive Fixture.system Fixture.make_options
           Fixture.dumper "dump.zip" None (Some [("employees", "SELEC")])
           Fixture.world).
  now vm_compute.
Defined.

(** C6 as first stated, with the archive deleted on any error, fails: the
    server rejects the selection of the partial table, [dump] raises, and
    the archive is still at [dump.zip], closed, with the two members
    written before. *)
Lemma failed_dump_archive_remains :
  exists w',
    dump Fixture.system Fixture.make_options Fixture.dumper "dump.zip" None
      (Some [("employees", "SELEC")]) Fixture.world
    = (inl (DatabaseError "COPY (SELEC) TO STDOUT WITH CSV HEADER"), w')
    /\ files w' !! "dump.zip"
       = Some {| entries :=
                   [("dump/schema.sql", "CREATE TABLE groups");
                    ("dump/sequences.sql",
                     "SELECT pg_catalog.setval('groups_id_seq', 2, true);")];
                 closed := true |}.
Proof. eexists. split; now vm_compute. Qed.

(** * The snapshot *)

Lemma transacts_execute_cached sys {R} sql ps
  (answer : Pg.Database -> option R) :
  transacts (c <- cursor sys ;; execute sys c sql ps answer).
Proof.
  intros w Hok. unfold cursor, bind.
  pose proof (transacts_connection sys w Hok) as H1.
  destruct (connection sys w) as [[e | c] w1] eqn:E; [exact H1 |].
  eapply extends_trans; [exact H1 |].
  apply execute_extends; [now apply connection_cached in E | apply H1].
Qed.

(** With no transaction open, a statement on the cursor opens one on what
    is current when it is sent; none is open afterwards only when no
    connection could be made. *)
Lemma first_statement_opens sys {R} sql ps (answer : Pg.Database -> option R) w :
  open_snapshot w = None ->
  match (c <- cursor sys ;; execute sys c sql ps answer) w with
  | (inl _, w1) =>
      open_snapshot w1 = None
      \/ open_snapshot w1 = Some (schedule sys (time w))
  | (inr _, w1) => open_snapshot w1 = Some (schedule sys (time w))
  end.
Proof.
  intros Hnone. unfold cursor, bind, connection. unfold open_snapshot in Hnone.
  destruct (cached_connection w) as [c |] eqn:Ec.
  - unfold execute, open_snapshot.
    destruct (aborted c); [right; simpl; now rewrite Hnone |].
    destruct (answer _); [| right]; simpl; now rewrite Hnone.
  - destruct (accepts_connections sys).
    + unfold execute, open_snapshot. simpl.
      destruct (answer _); [| right]; reflexivity.
    + left. unfold open_snapshot. now rewrite Ec.
Qed.

Lemma first_statement sys {R B} sql ps (answer : Pg.Database -> option R)
  (k : R -> M B) w :
  conn_ok w -> open_snapshot w = None ->
  (forall a, transacts (k a)) ->
  forall version,
    open_snapshot
      (bind (c <- cursor sys ;; execute sys c sql ps answer) k w).2
    = Some version ->
    version = schedule sys (time w).
Proof.
  intros Hok Hnone Hk version.
  pose proof (transacts_execute_cached sys sql ps answer w Hok) as Hrun.
  pose proof (first_statement_opens sys sql ps answer w Hnone) as Hfirst.
  unfold bind at 1.
  destruct ((c <- cursor sys ;; execute sys c sql ps answer) w)
    as [[e | a] w1]; simpl in *.
  - destruct Hfirst as [H | H]; congruence.
  - pose proof (Hk a w1 (ext_conn_ok _ _ Hrun)) as Hext.
    rewrite (open_snapshot_extends _ _ _ Hext Hfirst). congruence.
Qed.

(** The transaction a [dump] opens reads what is current when the first
    statement of the call is sent. *)
Lemma dump_first_snapshot sys make_options self filename full_tables
  partial_tables w version :
  conn_ok w -> open_snapshot w = None ->
  open_snapshot
    (dump sys make_options self filename full_tables partial_tables w).2
  = Some version ->
  version = schedule sys (time w).
Proof.
  intros Hok Hnone. unfold dump, with_Dump.
  destruct (writable sys filename); [| simpl; congruence].
  fold (opened filename w).
  set (ft := Py.or_else Py.truthy_list full_tables []).
  set (pt := Py.or_else Py.truthy_list partial_tables []).
  set (rest := bind (write_sequences sys make_options self filename) _).
  assert (Trest : transacts rest).
  { apply transacts_bind; [apply transacts_write_sequences |]. intros _.
    apply transacts_bind; [apply transacts_write_full_tables |]. intros _.
    apply transacts_write_partial_tables. }
  unfold write_schema, dump_schema, get_selectable_tables, run.
  do 2 rewrite bind_assoc.
  match goal with
  | |- context [bind (c <- cursor sys ;; execute sys c ?sql ?ps ?answer) ?k _] =>
      pose proof (first_statement sys sql ps answer k (opened filename w)
                    Hok Hnone) as H;
      destruct (bind (c <- cursor sys ;; execute sys c sql ps answer) k
                  (opened filename w)) as [r w1]
  end.
  simpl in *. intros Hv. apply H; [| exact Hv].
  intros tables. apply transacts_bind; [apply transacts_pg_dump |].
  intros schema. apply transacts_bind; [apply transacts_writestr |].
  intros _. exact Trest.
Qed.

(** C4: every statement of a [dump] call, catalog query or COPY, is issued
    on the one cached connection, at isolation level repeatable read, and
    reads the snapshot of the transaction open on that connection when the
    call ends.  A transaction open when [dump] is called stays the open
    one: the connection keeps its snapshot, and every statement of the call
    runs on that connection and reads that snapshot.  With no transaction
    open when [dump] is called, every statement of the call reads what is
    current when the first statement of the call is sent.  And when [dump]
    returns, a transaction is open: nothing has ended it. *)
Theorem dump_reads_one_snapshot (sys : System)
  (make_options : string -> list string -> list string) (self : Dumper)
  (filename : string) (full_tables : option (list string))
  (partial_tables : option (list (string * string))) (w : World) :
  conn_ok w ->
  exists evs,
    trace (dump sys make_options self filename full_tables partial_tables w).2
    = trace w ++ evs
    /\ (forall cid version sql ps,
          In (Statement cid version sql ps) evs ->
          exists c,
            cached_connection
              (dump sys make_options self filename full_tables
                 partial_tables w).2
            = Some c
            /\ conn_id c = cid
            /\ isolation_level c = REPEATABLE_READ
            /\ snapshot c = Some version)
    /\ (forall c0 version0,
          cached_connection w = Some c0 -> snapshot c0 = Some version0 ->
          (exists c,
              cached_connection
                (dump sys make_options self filename full_tables
                   partial_tables w).2
              = Some c
              /\ conn_id c = conn_id c0
              /\ snapshot c = Some version0)
          /\ forall cid version sql ps,
               In (Statement cid version sql ps) evs ->
               cid = conn_id c0 /\ version = version0)
    /\ (open_snapshot w = None ->
        forall cid version sql ps,
          In (Statement cid version sql ps) evs ->
          version = schedule sys (time w))
    /\ ((dump sys make_options self filename full_tables partial_tables w).1
        = inr tt ->
        is_Some
          (open_snapshot
             (dump sys make_options self filename full_tables
                partial_tables w).2)).
Proof.
  intros Hok.
  destruct (transacts_dump sys make_options self filename full_tables
              partial_tables w Hok) as [_ Hfrozen (evs & Ht & Hr)].
  exists evs. split; [exact Ht |]. split; [exact Hr |].
  split; [| split].
  - intros c0 version0 Hc0 Hs0.
    destruct (Hfrozen c0 Hc0) as (c & Hc & Hid & _ & Hs);
      [rewrite Hs0; now eexists |].
    split.
    + exists c. split; [exact Hc |]. split; [exact Hid | congruence].
    + intros cid version sql ps Hin.
      destruct (Hr _ _ _ _ Hin) as (c' & Hc' & Hid' & _ & Hs').
      rewrite Hc in Hc'. injection Hc' as <-. split; congruence.
  - intros Hnone cid version sql ps Hin.
    destruct (Hr _ _ _ _ Hin) as (c & Hc & _ & _ & Hs).
    apply (dump_first_snapshot sys make_options self filename full_tables
             partial_tables w version Hok Hnone).
    unfold open_snapshot. now rewrite Hc.
  - intros Hret.
    destruct (dump sys make_options self filename full_tables partial_tables w)
      as [r w'] eqn:E.
    simpl in Hret. subst r.
    destruct (dump_contents sys make_options self filename full_tables
                partial_tables w w' Hok E) as (v & _ & _ & _ & Hv & _).
    simpl. rewrite Hv. now eexists.
Qed.

Lemma dump_reads_one_snapshot_witness :
  exists evs,
    trace
      (dump Fixture.system Fixture.make_options Fixture.dumper "dump.zip"
         (Some ["employees"; "groups"]) None Fixture.world).2
    = trace Fixture.world ++ evs
    /\ (forall cid version sql ps,
          In (Statement cid version sql ps) evs ->
          exists c,
            cached_connection
              (dump Fixture.system Fixture.make_options Fixture.dumper
                 "dump.zip" (Some ["employees"; "groups"]) None
                 Fixture.world).2
            = Some c
            /\ conn_id c = cid
            /\ isolation_level c = REPEATABLE_READ
            /\ snapshot c = Some version)
    /\ (forall c0 version0,
          cached_connection Fixture.world = Some c0 ->
          snapshot c0 = Some version0 ->
          (exists c,
              cached_connection
                (dump Fixture.system Fixture.make_options Fixture.dumper
                   "dump.zip" (Some ["employees"; "groups"]) None
                   Fixture.world).2
              = Some c
              /\ conn_id c = conn_id c0
              /\ snapshot c = Some version0)
          /\ forall cid version sql ps,
               In (Statement cid version sql ps) evs ->
               cid = conn_id c0 /\ version = version0)
    /\ (open_snapshot Fixture.world = None ->
        forall cid version sql ps,
          In (Statement cid version sql ps) evs ->
          version = schedule Fixture.system (time Fixture.world))
    /\ ((dump Fixture.system Fixture.make_options Fixture.dumper "dump.zip"
           (Some ["employees"; "groups"]) None Fixture.world).1
        = inr tt ->
        is_Some
          (open_snapshot
             (dump Fixture.system Fixture.make_options Fixture.dumper
                "dump.zip" (Some ["employees"; "groups"]) None
                Fixture.world).2)).
Proof.
  apply (dump_reads_one_snapshot Fixture.system Fixture.make_options
           Fixture.dumper "dump.zip" (Some ["employees"; "groups"]) None
           Fixture.world).
  intros c H. discriminate H.
Defined.

(** C4 as first stated, with the transaction opened at the start of [dump]
    and committed at its end, fails: when [dump] has returned, the
    transaction is still open on the cached connection, nothing was
    committed.  A second [dump] on the same [Dumper] reads the snapshot of
    the first, version 0, although version 4 is current when it starts, and
    writes the rows of version 0. *)
Lemma dump_leaves_transaction_open :
  exists first second,
    dump Fixture.system Fixture.make_options Fixture.dumper "dump.zip"
      None None Fixture.world
    = (inr tt, first)
    /\ cached_connection first
       = Some {| conn_id := 0; isolation_level := REPEATABLE_READ;
                 snapshot := Some 0; aborted := false |}
    /\ ~ Spec.committed first
    /\ schedule Fixture.system (time first) = 4
    /\ dump Fixture.system Fixture.make_options Fixture.dumper "dump.zip"
         (Some ["groups"]) None first
       = (inr tt, second)
    /\ Spec.versions_read (drop (length (trace first)) (trace second))
       = [0; 0; 0; 0]
    /\ Fixture.groups_csv 0 <> Fixture.groups_csv 4
    /\ entries <$> files second !! "dump.zip"
       = Some [("dump/schema.sql", "CREATE TABLE groups");
               ("dump/sequences.sql",
                "SELECT pg_catalog.setval('groups_id_seq', 2, true);");
               ("dump/data/groups.csv", Fixture.groups_csv 0)].
Proof.
  eexists _, _. split; [now vm_compute |]. split; [now vm_compute |].
  split; [| split; [now vm_compute |]].
  - intros H.
    specialize
      (H {| conn_id := 0; isolation_level := REPEATABLE_READ;
            snapshot := Some 0; aborted := false |}).
    assert (E : Some 0 = None); [| discriminate E].
    apply H. now vm_compute.
  - split; [now vm_compute |]. split; [now vm_compute |].
    split; [| now vm_compute]. discriminate.
Qed.

(** * The defaults *)

(** C10: with [full_tables] and [partial_tables] left out (or [None], or
    empty), [dump] returns and the archive holds exactly two members,
    [dump/schema.sql] followed by [dump/sequences.sql], provided the
    archive can be opened, a connection is cached, its transaction not
    aborted, or the server accepts one, the port of the [Dumper] is a
    string and [pg_dump] can be started. *)
Theorem dump_defaults (sys : System)
  (make_options : string -> list string -> list string) (self : Dumper)
  (filename : string) (full_tables : option (list string))
  (partial_tables : option (list (string * string))) (w : World) :
  full_tables = None \/ full_tables = Some [] ->
  partial_tables = None \/ partial_tables = Some [] ->
  writable sys filename = true ->
  accepts_connections sys = true \/ is_Some (cached_connection w) ->
  (forall c, cached_connection w = Some c -> aborted c = false) ->
  Py.is_str (port self) = true ->
  (forall db argv env, is_Some (pg_dump_program sys db argv env)) ->
  exists w' schema sequences,
    dump sys make_options self filename full_tables partial_tables w
    = (inr tt, w')
    /\ files w' !! filename
       = Some {| entries := [("dump/schema.sql", schema);
                             ("dump/sequences.sql", sequences)];
                 closed := true |}.
Proof.
  intros Hfull Hpart Hw Hc Hh Hport Hpg.
  assert (Hf : Py.or_else Py.truthy_list full_tables [] = []).
  { now destruct Hfull as [-> | ->]. }
  assert (Hp : Py.or_else Py.truthy_list partial_tables [] = []).
  { now destruct Hpart as [-> | ->]. }
  destruct (dump_returns sys make_options self filename full_tables
              partial_tables w Hw Hc Hh Hport Hpg) as [w' E].
  { rewrite Hf. now intros ? ? []. }
  { rewrite Hp. now intros ? ? []. }
  destruct (dump_archive sys make_options self filename full_tables
              partial_tables w Hw) as (z & Hz & Hcl & Hn).
  rewrite E in Hz, Hn. simpl in Hz, Hn.
  unfold dump_names in Hn. rewrite Hf, Hp in Hn. simpl in Hn.
  destruct z as [es cl]. unfold namelist in Hn. simpl in *. subst cl.
  destruct es as [| [n1 schema] [| [n2 sequences] [| ? ?]]]; try discriminate.
  simpl in Hn. injection Hn as -> ->.
  now exists w', schema, sequences.
Qed.

Lemma dump_defaults_witness :
  exists w' schema sequences,
    dump Fixture.system Fixture.make_options Fixture.dumper "dump.zip"
      None None Fixture.world = (inr tt, w')
    /\ files w' !! "dump.zip"
       = Some {| entries := [("dump/schema.sql", schema);
                             ("dump/sequences.sql", sequences)];
                 closed := true |}.
Proof.
  apply (dump_defaults Fixture.system Fixture.make_options Fixture.dumper
           "dump.zip" None None Fixture.world).
  - now left.
  - now left.
  - reflexivity.
  - now left.
  - intros c H. discriminate H.
  - reflexivity.
  - intros db argv env. now eexists.
Defined.

(** * The port *)

(** X11: a [Dumper] whose port is no string, as the default of the class,
    the integer 5432, is none, completes no [dump]: every call raises, and
    the archive, when it could be opened, is left closed and empty.  When
    the archive can be opened and the catalog query is answered, the
    exception is the TypeError of [Popen]. *)
Theorem dump_needs_str_port (sys : System)
  (make_options : string -> list string -> list string) (self : Dumper)
  (filename : string) (full_tables : option (list string))
  (partial_tables : option (list (string * string))) (w : World) :
  Py.is_str (port self) = false ->
  exists e w',
    dump sys make_options self filename full_tables partial_tables w
    = (inl e, w')
    /\ (writable sys filename = true ->
        files w' !! filename = Some {| entries := []; closed := true |})
    /\ (writable sys filename = true ->
        accepts_connections sys = true \/ is_Some (cached_connection w) ->
        (forall c, cached_connection w = Some c -> aborted c = false) ->
        exists what, e = TypeError what).
Proof.
  intros Hport. unfold dump, with_Dump.
  destruct (writable sys filename) eqn:Hw.
  2: { eexists _, _. split; [reflexivity |]. split; intros; discriminate. }
  fold (opened filename w).
  unfold write_schema, dump_schema, get_selectable_tables.
  do 2 rewrite bind_assoc. unfold bind at 1.
  pose proof (keeps_files_run sys SELECTABLE_TABLES_SQL [] Pg.selectable_tables
                (opened filename w)) as Hfiles.
  destruct (run sys SELECTABLE_TABLES_SQL [] Pg.selectable_tables
              (opened filename w)) as [[e | tables] w1] eqn:Erun;
    simpl in Hfiles.
  - eexists _, _. split; [reflexivity |]. split.
    + intros _. unfold close_archive. simpl. rewrite Hfiles. simpl.
      rewrite lookup_insert_eq. simpl. now rewrite lookup_insert_eq.
    + intros _ Hc Hh.
      destruct (returns_run sys filename SELECTABLE_TABLES_SQL []
                  Pg.selectable_tables (opened filename w))
        as (a & w2 & E & _); [| congruence].
      split; [| split; [exact Hc | exact Hh]].
      eexists. split; [apply lookup_insert_eq | done].
  - unfold bind at 1, pg_dump. cbn [forallb app Py.is_str].
    rewrite Hport. cbn [andb].
    eexists _, _. split; [reflexivity |]. split.
    + intros _. unfold close_archive. simpl. rewrite Hfiles. simpl.
      rewrite lookup_insert_eq. simpl. now rewrite lookup_insert_eq.
    + intros _ _ _. now eexists.
Qed.

Lemma dump_needs_str_port_witness :
  exists e w',
    dump Fixture.system Fixture.make_options Fixture.default_port_dumper
      "dump.zip" None None Fixture.world
    = (inl e, w')
    /\ (writable Fixture.system "dump.zip" = true ->
        files w' !! "dump.zip" = Some {| entries := []; closed := true |})
    /\ (writable Fixture.system "dump.zip" = true ->
        accepts_connections Fixture.system = true
        \/ is_Some (cached_connection Fixture.world) ->
        (forall c, cached_connection Fixture.world = Some c ->
                   aborted c = false) ->
        exists what, e = TypeError what).
Proof.
  apply (dump_needs_str_port Fixture.system Fixture.make_options
           Fixture.default_port_dumper "dump.zip" None None Fixture.world).
  reflexivity.
Defined.
